(** * A byte-oriented rANS coder: model of [minimal.py]

    The development embeds the three operations of the coder
    ([generate_frequency_table] / [StaticModel], [compress], [decompress])
    as executable functions over [Z], lists and [Byte.byte], with Python's
    exceptions made explicit, and then establishes the properties of the
    frequency model, of the state register and of the wire layout. *)

From Stdlib Require Import ZArith List Lia Bool.
From Stdlib.Strings Require Import String Byte.
From stdpp Require Import base list.

Open Scope Z_scope.

(** ** Python values and effects *)

Module Py.

(** The exceptions the program can raise. *)
Inductive exn : Type :=
| ZeroDivisionError
| ValueError (msg : string)
| IndexError
| StructError.

(** What running a piece of Python yields: a value, an exception, or no
    answer at all (a loop that does not stop). *)
Inductive outcome (A : Type) : Type :=
| Ok (a : A)
| Raise (e : exn)
| Diverge.

Arguments Ok {A} a.
Arguments Raise {A} e.
Arguments Diverge {A}.

Definition bind {A B : Type} (m : outcome A) (k : A -> outcome B) : outcome B :=
  match m with
  | Ok a => k a
  | Raise e => Raise e
  | Diverge => Diverge
  end.

(** [l[i]] on a Python list: a negative index counts from the end, an index
    outside the list raises [IndexError]. *)
Definition getitem {A : Type} (l : list A) (i : Z) : outcome A :=
  let n := Z.of_nat (length l) in
  let j := if i <? 0 then i + n else i in
  if (0 <=? j) && (j <? n) then
    match l !! Z.to_nat j with
    | Some x => Ok x
    | None => Raise IndexError
    end
  else Raise IndexError.

(** [l[i] = v] on a Python list. *)
Definition setitem {A : Type} (l : list A) (i : Z) (v : A) : outcome (list A) :=
  let n := Z.of_nat (length l) in
  let j := if i <? 0 then i + n else i in
  if (0 <=? j) && (j <? n) then Ok (<[Z.to_nat j := v]> l)
  else Raise IndexError.

(** [a // b] on Python integers: floor division, which is [Z.div]. *)
Definition floordiv (a b : Z) : outcome Z :=
  if b =? 0 then Raise ZeroDivisionError else Ok (a / b).

(** [sum(l)]. *)
Definition sum (l : list Z) : Z := foldr Z.add 0 l.
Arguments sum : simpl never.

(** The integer a byte of a [bytes] object stands for. *)
Definition int_of_byte (b : byte) : Z := Z.of_N (Byte.to_N b).

(** [bytes(l)] for a list of integers: every item must be in [range(256)]. *)
Fixpoint bytes (l : list Z) : outcome (list byte) :=
  match l with
  | [] => Ok []
  | x :: r =>
      if (0 <=? x) && (x <? 256) then
        match Byte.of_N (Z.to_N x) with
        | Some b => bind (bytes r) (fun bs => Ok (b :: bs))
        | None => Raise (ValueError "bytes must be in range(0, 256)")
        end
      else Raise (ValueError "bytes must be in range(0, 256)")
  end.

(** [struct.pack("<I", x)]: four bytes, least significant first. *)
Definition pack_le_u32 (x : Z) : outcome (list byte) :=
  if (0 <=? x) && (x <? 2 ^ 32) then
    bytes [Z.land x 255;
           Z.land (Z.shiftr x 8) 255;
           Z.land (Z.shiftr x 16) 255;
           Z.land (Z.shiftr x 24) 255]
  else Raise StructError.

(** [struct.unpack(">I", bs)[0]]: exactly four bytes, most significant
    first. *)
Definition unpack_be_u32 (bs : list byte) : outcome Z :=
  match bs with
  | [b3; b2; b1; b0] =>
      Ok (Z.lor (Z.shiftl (int_of_byte b3) 24)
         (Z.lor (Z.shiftl (int_of_byte b2) 16)
         (Z.lor (Z.shiftl (int_of_byte b1) 8) (int_of_byte b0))))
  | _ => Raise StructError
  end.

End Py.

Export Py.

Declare Scope py_scope.
Notation "'let*' p ':=' m 'in' k" := (bind m (fun p => k))
  (at level 10, p pattern, m at level 100, k at level 200) : py_scope.
Open Scope py_scope.

(** ** Module constants *)

Definition MODEL_BITS : Z := 12.
Definition STATE_BITS : Z := 31.
Definition BITS_PER_CHUNK : Z := 8.

(** ** [generate_frequency_table] *)

(** [freqs[b] += 1] for every byte of the corpus, from [[0] * 256].  A byte
    is below 256, so the index is always inside the list. *)
Definition count_bytes (raw : list byte) : list Z :=
  fold_left (fun freqs b => alter (fun f => f + 1) (N.to_nat (Byte.to_N b)) freqs)
            raw (replicate 256 0).

(** One run of the [for i, f in enumerate(freqs)] loop: every non-zero
    frequency below [limit] is raised to [limit]; the pair is
    ([added], the updated list). *)
Fixpoint raise_pass (limit : Z) (freqs : list Z) : Z * list Z :=
  match freqs with
  | [] => (0, [])
  | f :: rest =>
      let '(added, rest') := raise_pass limit rest in
      if negb (f =? 0) && (f <? limit)
      then (limit - f + added, limit :: rest')
      else (added, f :: rest')
  end.

(** The [while True] loop; [fuel] bounds the number of passes. *)
Fixpoint redistribute (fuel : nat) (enc_total : Z) (freqs : list Z) (total : Z)
  : outcome (list Z * Z) :=
  match fuel with
  | O => Diverge
  | S fuel' =>
      let limit := total / enc_total + 1 in
      let '(added, freqs') := raise_pass limit freqs in
      if added =? 0 then Ok (freqs', total)
      else redistribute fuel' enc_total freqs' (total + added)
  end.

(** [[f * enc_total // total for f in freqs]]. *)
Fixpoint scale (enc_total total : Z) (freqs : list Z) : outcome (list Z) :=
  match freqs with
  | [] => Ok []
  | f :: rest =>
      let* q := floordiv (f * enc_total) total in
      let* rest' := scale enc_total total rest in
      Ok (q :: rest')
  end.

Definition generate_frequency_table_fuel (fuel : nat) (raw : list byte)
  : outcome (list Z) :=
  let enc_total := Z.shiftl 1 MODEL_BITS in
  let freqs := count_bytes raw in
  let total := Py.sum freqs in
  let* (freqs, total) := redistribute fuel enc_total freqs total in
  scale enc_total total freqs.

(** The number of passes granted to the redistribution loop; it is never
    exhausted (see [redistribute_terminates]). *)
Definition passes (raw : list byte) : nat := length raw + 3.

Definition generate_frequency_table (raw : list byte) : outcome (list Z) :=
  generate_frequency_table_fuel (passes raw) raw.

(** ** [StaticModel] *)

Record StaticModel : Type := mkStaticModel {
  _freqs : list Z;
  _cdf : list Z;
  _mask : Z
}.

(** The [for f in self._freqs] loop of the constructor, from the running
    sum [cf]. *)
Fixpoint prefix_sums (cf : Z) (freqs : list Z) : list Z :=
  match freqs with
  | [] => []
  | f :: rest => cf :: prefix_sums (cf + f) rest
  end.

Definition StaticModel_init (input_data : list byte) : outcome StaticModel :=
  let* freqs := generate_frequency_table input_data in
  Ok {| _freqs := freqs;
        _cdf := prefix_sums 0 freqs;
        _mask := Z.shiftl 1 MODEL_BITS - 1 |}.

Definition cdf (model : StaticModel) (symbol : Z) : outcome Z :=
  getitem (_cdf model) symbol.

Definition freq (model : StaticModel) (symbol : Z) : outcome Z :=
  getitem (_freqs model) symbol.

(** ** [compress] *)

Definition L : Z := Z.shiftl 1 (STATE_BITS - 8).
Definition MASK : Z := Z.shiftl 1 MODEL_BITS - 1.

(** [while X >= H: outbuf.append(X & 0xFF); X >>= 8].  With [H > 0] the
    loop stops within [log2 X + 1] rounds; with [H <= 0] it does not stop,
    and the model answers [Diverge]. *)
Fixpoint renorm_out (fuel : nat) (H X : Z) (outbuf : list Z)
  : outcome (Z * list Z) :=
  if X >=? H then
    match fuel with
    | O => Diverge
    | S fuel' => renorm_out fuel' H (Z.shiftr X 8) (outbuf ++ [Z.land X 255])
    end
  else Ok (X, outbuf).

Definition rounds (X : Z) : nat := S (Z.to_nat (Z.log2 X)).

(** The body of [for b in raw], on the state [(X, outbuf)]. *)
Definition encode_symbol (model : StaticModel) (st : Z * list Z) (b : byte)
  : outcome (Z * list Z) :=
  let '(X, outbuf) := st in
  let* f := freq model (int_of_byte b) in
  if f =? 0 then Raise (ValueError "Cannot encode symbols with zero frequency")
  else
    let H := Z.shiftl (Z.shiftr L MODEL_BITS) 8 * f in
    let* (X, outbuf) := renorm_out (rounds X) H X outbuf in
    let* c := cdf model (int_of_byte b) in
    Ok (Z.shiftl (X / f) MODEL_BITS + X mod f + c, outbuf).

Fixpoint compress_loop (model : StaticModel) (raw : list byte) (st : Z * list Z)
  : outcome (Z * list Z) :=
  match raw with
  | [] => Ok st
  | b :: rest =>
      let* st' := encode_symbol model st b in
      compress_loop model rest st'
  end.

Definition compress (model : StaticModel) (raw : list byte)
  : outcome (list byte) :=
  let* (X, outbuf) := compress_loop model raw (L, []) in
  let* body := bytes outbuf in
  let* state := pack_le_u32 X in
  Ok (body ++ state).

(** ** [decompress] *)

(** [comp.read(n)] on the [BytesIO]: the bytes read and the rest of the
    stream. *)
Definition read (n : nat) (stream : list byte) : list byte * list byte :=
  (take n stream, drop n stream).

(** [while cursor < up: symbol_table[cursor] = s - 1; cursor += 1].  The
    cursor never decreases and writing past the table raises, so the loop
    runs at most once per slot. *)
Fixpoint fill_slots (fuel : nat) (symbol_table : list Z) (cursor up s : Z)
  : outcome (list Z * Z) :=
  if cursor <? up then
    match fuel with
    | O => Diverge
    | S fuel' =>
        let* symbol_table := setitem symbol_table cursor (s - 1) in
        fill_slots fuel' symbol_table (cursor + 1) up s
    end
  else Ok (symbol_table, cursor).

(** The [for s in range(256)] loop, over the symbols still to visit. *)
Fixpoint build_symbol_table_loop (model : StaticModel) (symbols : list Z)
    (symbol_table : list Z) (cursor : Z) : outcome (list Z) :=
  match symbols with
  | [] => Ok symbol_table
  | s :: rest =>
      let* up := cdf model s in
      let* (symbol_table, cursor) :=
        fill_slots (S (length symbol_table)) symbol_table cursor up s in
      build_symbol_table_loop model rest symbol_table cursor
  end.

Definition build_symbol_table (model : StaticModel) : outcome (list Z) :=
  build_symbol_table_loop model (map Z.of_nat (seq 0 256))
    (replicate (Z.to_nat (MASK + 1)) 0) 0.

(** [while X < L: X = (X << 8) | comp.read(1)[0]]. *)
Fixpoint renorm_in (stream : list byte) (X : Z) : outcome (Z * list byte) :=
  if X <? L then
    match stream with
    | [] => Raise IndexError
    | b :: rest => renorm_in rest (Z.lor (Z.shiftl X 8) (int_of_byte b))
    end
  else Ok (X, stream).

(** The body of [for _ in range(length)], on the state [(X, comp)]; the
    third component is the symbol appended to [outbuf]. *)
Definition decode_symbol (model : StaticModel) (symbol_table : list Z)
    (st : Z * list byte) : outcome (Z * list byte * Z) :=
  let '(X, stream) := st in
  let* s := getitem symbol_table (Z.land X MASK) in
  let* f := freq model s in
  if f =? 0
  then Raise (ValueError "Decoding/Symbol Table Error, symbol with 0 frequency found.")
  else
    let* f := freq model s in
    let* c := cdf model s in
    let X := f * Z.shiftr X MODEL_BITS + Z.land X MASK - c in
    let* (X, stream) := renorm_in stream X in
    Ok (X, stream, s).

Fixpoint decode_loop (model : StaticModel) (symbol_table : list Z)
    (length : nat) (st : Z * list byte) (outbuf : list Z)
  : outcome (Z * list byte * list Z) :=
  match length with
  | O => Ok (st, outbuf)
  | S length' =>
      let* (st', s) := decode_symbol model symbol_table st in
      decode_loop model symbol_table length' st' (outbuf ++ [s])
  end.

(** The first statements of [decompress]: reverse the buffer and read the
    state. *)
Definition read_state (comp : list byte) : outcome (Z * list byte) :=
  let '(head, stream) := read 4 (rev comp) in
  let* X := unpack_be_u32 head in
  Ok (X, stream).

Definition decompress (model : StaticModel) (comp : list byte) (length : nat)
  : outcome (list byte) :=
  let* st := read_state comp in
  let* symbol_table := build_symbol_table model in
  let* (_, outbuf) := decode_loop model symbol_table length st [] in
  bytes (rev outbuf).

(** ** Auxiliary notions for the frequency table *)

(** What one pass does to a single frequency. *)
Definition raised (limit f : Z) : Z :=
  if negb (f =? 0) && (f <? limit) then limit else f.

(** The part of the frequencies above the level [p]. *)
Definition excess (p : Z) (freqs : list Z) : Z :=
  Py.sum (map (fun f => Z.max 0 (f - p)) freqs).

(** Same zero entries, and no entry has shrunk. *)
Definition grown (before after : list Z) : Prop :=
  Forall2 (fun f g => (f = 0 <-> g = 0) /\ f <= g) before after.

(** ** Well-formed models *)

(** What the decoder and the encoder rely on in a model; every model the
    constructor returns has it (see [StaticModel_init_wf]). *)
Definition wf_model (model : StaticModel) : Prop :=
  length (_freqs model) = 256%nat /\
  Forall (fun f => 0 <= f) (_freqs model) /\
  Py.sum (_freqs model) <= 2 ^ MODEL_BITS /\
  _cdf model = prefix_sums 0 (_freqs model).

(** ** Sample corpora *)

Definition corpus_aab : list byte := ["a"; "a"; "b"]%byte.
Definition corpus_aaab : list byte := ["a"; "a"; "a"; "b"]%byte.
Definition corpus_abcd : list byte := ["a"; "b"; "c"; "d"]%byte.
Definition corpus_ff : list byte := [xff].
Definition corpus_00ff : list byte := [x00; xff].

(** ** The state register along a pass *)

(** The interval the state register is meant to stay in. *)
Definition in_range (X : Z) : Prop := L <= X < L * 256.

(** What [outbuf] holds in the encoder: integers that fit a byte. *)
Definition byte_sized (x : Z) : Prop := 0 <= x < 256.

(** The values of [X] at the head of every iteration of the encoder's
    [for] loop and at its exit, from the state [st]. *)
Fixpoint compress_states (model : StaticModel) (raw : list byte) (st : Z * list Z)
  : list Z :=
  fst st ::
  match raw with
  | [] => []
  | b :: rest =>
      match encode_symbol model st b with
      | Ok st' => compress_states model rest st'
      | _ => []
      end
  end.

(** The values [X >>= 8] assigns in the encoder's [while] loop. *)
Fixpoint renorm_out_trace (fuel : nat) (H X : Z) : list Z :=
  if X >=? H then
    match fuel with
    | O => []
    | S fuel' => Z.shiftr X 8 :: renorm_out_trace fuel' H (Z.shiftr X 8)
    end
  else [].

(** Every value assigned to [X] while one symbol is encoded: those of the
    [while] loop, then that of the transform. *)
Definition encode_symbol_trace (model : StaticModel) (st : Z * list Z) (b : byte)
  : list Z :=
  match freq model (int_of_byte b) with
  | Ok f =>
      if f =? 0 then []
      else
        renorm_out_trace (rounds (fst st))
          (Z.shiftl (Z.shiftr L MODEL_BITS) 8 * f) (fst st)
        ++ match encode_symbol model st b with
           | Ok st' => [fst st']
           | _ => []
           end
  | _ => []
  end.

(** Every value [X] takes during an encode pass, from the state [st]. *)
Fixpoint compress_trace (model : StaticModel) (raw : list byte) (st : Z * list Z)
  : list Z :=
  match raw with
  | [] => []
  | b :: rest =>
      encode_symbol_trace model st b
      ++ match encode_symbol model st b with
         | Ok st' => compress_trace model rest st'
         | _ => []
         end
  end.

(** The values of [X] at the head of every iteration of the decoder's
    [for] loop and at its exit, from the state [st]. *)
Fixpoint decode_states (model : StaticModel) (symbol_table : list Z)
    (length : nat) (st : Z * list byte) : list Z :=
  fst st ::
  match length with
  | O => []
  | S length' =>
      match decode_symbol model symbol_table st with
      | Ok (st', _) => decode_states model symbol_table length' st'
      | _ => []
      end
  end.

(** ** The inverse table *)

(** The running sum of the first [j] frequencies: [cdf(j)] for [j < 256]. *)
Definition cum (model : StaticModel) (j : nat) : Z :=
  Py.sum (take j (_freqs model)).

(** What the [for s in range(256)] loop of [decompress] leaves in the
    table: below [cdf(255)] every slot holds the symbol whose interval it
    lies in, and from [cdf(255)] on every slot still holds the initial 0. *)
Definition table_built (model : StaticModel) (symbol_table : list Z) : Prop :=
  length symbol_table = 4096%nat /\
  forall (i : nat) (t : Z), symbol_table !! i = Some t ->
    (Z.of_nat i < cum model 255 /\ 0 <= t <= 254 /\
     cum model (Z.to_nat t) <= Z.of_nat i < cum model (S (Z.to_nat t)))
    \/ (cum model 255 <= Z.of_nat i /\ t = 0).

(* ================================================================= *)
(** * Properties *)

(** ** Facts about the Python layer *)

Lemma bind_Ok {A B : Type} (m : outcome A) (k : A -> outcome B) (b : B) :
  bind m k = Ok b -> exists a, m = Ok a /\ k a = Ok b.
Proof. destruct m as [a| |]; simpl; intros H; try discriminate. eauto. Qed.

Lemma getitem_Ok {A : Type} (l : list A) (i : nat) (x : A) :
  l !! i = Some x -> getitem l (Z.of_nat i) = Ok x.
Proof.
  intros H. unfold getitem.
  pose proof (lookup_lt_Some _ _ _ H) as Hlt.
  destruct (Z.ltb_spec (Z.of_nat i) 0) as [?|_]; [lia|].
  destruct (Z.leb_spec 0 (Z.of_nat i)) as [_|?]; [|lia].
  destruct (Z.ltb_spec (Z.of_nat i) (Z.of_nat (length l))) as [_|?]; [|lia].
  simpl. rewrite Nat2Z.id, H. reflexivity.
Qed.

Lemma getitem_in_range {A : Type} (l : list A) (i : Z) :
  0 <= i < Z.of_nat (length l) ->
  exists x, l !! Z.to_nat i = Some x /\ getitem l i = Ok x.
Proof.
  intros Hi.
  destruct (lookup_lt_is_Some_2 l (Z.to_nat i)) as [x Hx]; [lia|].
  exists x. split; [exact Hx|].
  rewrite <- (Z2Nat.id i) by lia. apply getitem_Ok, Hx.
Qed.

Lemma int_of_byte_range (b : byte) : 0 <= int_of_byte b < 256.
Proof.
  unfold int_of_byte. pose proof (Byte.to_N_bounded b). lia.
Qed.

Lemma int_of_byte_index (b : byte) :
  Z.to_nat (int_of_byte b) = N.to_nat (Byte.to_N b).
Proof. unfold int_of_byte. lia. Qed.

Lemma sum_app (l1 l2 : list Z) : Py.sum (l1 ++ l2) = Py.sum l1 + Py.sum l2.
Proof.
  induction l1 as [|x l1 IH]; [reflexivity|].
  change ((x :: l1) ++ l2) with (x :: (l1 ++ l2)).
  change (x + Py.sum (l1 ++ l2) = x + Py.sum l1 + Py.sum l2). lia.
Qed.

Lemma sum_cons (x : Z) (l : list Z) : Py.sum (x :: l) = x + Py.sum l.
Proof. reflexivity. Qed.

Lemma sum_nonneg (l : list Z) : Forall (fun f => 0 <= f) l -> 0 <= Py.sum l.
Proof.
  induction 1 as [|x l Hx _ IH]; [reflexivity|]. rewrite sum_cons. lia.
Qed.

Lemma sum_lookup_le (l : list Z) (i : nat) (x : Z) :
  Forall (fun f => 0 <= f) l -> l !! i = Some x -> x <= Py.sum l.
Proof.
  intros Hl. revert i. induction Hl as [|y l Hy Hl IH]; intros [|i] Hi;
    simpl in Hi; try discriminate; rewrite sum_cons.
  - injection Hi as ->. pose proof (sum_nonneg l Hl). lia.
  - specialize (IH i Hi). lia.
Qed.

(** ** The counting loop *)

Section Counting.

Let step (freqs : list Z) (b : byte) : list Z :=
  alter (fun f => f + 1) (N.to_nat (Byte.to_N b)) freqs.

Lemma sum_alter_succ (l : list Z) (i : nat) :
  (i < length l)%nat -> Py.sum (alter (fun f => f + 1) i l) = Py.sum l + 1.
Proof.
  revert i. induction l as [|x l IH]; intros [|i] Hi; simpl in Hi; try lia.
  - change (Py.sum (x + 1 :: l) = Py.sum (x :: l) + 1). rewrite !sum_cons. lia.
  - specialize (IH i ltac:(lia)).
    change (Py.sum (x :: alter (fun f => f + 1) i l) = Py.sum (x :: l) + 1).
    rewrite !sum_cons, IH. lia.
Qed.

Lemma count_fold_length (raw : list byte) (acc : list Z) :
  length (fold_left step raw acc) = length acc.
Proof.
  revert acc. induction raw as [|b raw IH]; intros acc; simpl; [reflexivity|].
  rewrite IH. apply length_alter.
Qed.

Lemma count_fold_sum (raw : list byte) (acc : list Z) :
  length acc = 256%nat ->
  Py.sum (fold_left step raw acc) = Py.sum acc + Z.of_nat (length raw).
Proof.
  revert acc. induction raw as [|b raw IH]; intros acc Hlen; simpl; [lia|].
  rewrite IH by (unfold step; rewrite length_alter; exact Hlen).
  unfold step. rewrite sum_alter_succ; [lia|].
  pose proof (Byte.to_N_bounded b). lia.
Qed.

Lemma count_fold_mono (raw : list byte) (acc : list Z) (i : nat) (x : Z) :
  acc !! i = Some x ->
  exists y, fold_left step raw acc !! i = Some y /\ x <= y.
Proof.
  revert acc x. induction raw as [|b raw IH]; intros acc x Hx; simpl.
  - exists x. split; [exact Hx | lia].
  - destruct (decide (N.to_nat (Byte.to_N b) = i)) as [Heq|Hne]; [subst i|].
    + destruct (IH (step acc b) (x + 1)) as (y & Hy & Hle).
      { unfold step. rewrite list_lookup_alter_eq, Hx. reflexivity. }
      exists y. split; [exact Hy | lia].
    + destruct (IH (step acc b) x) as (y & Hy & Hle).
      { unfold step. rewrite list_lookup_alter_ne by exact Hne. exact Hx. }
      exists y. split; [exact Hy | lia].
Qed.

Lemma count_fold_present (raw : list byte) (acc : list Z) (b : byte) :
  length acc = 256%nat -> Forall (fun f => 0 <= f) acc -> In b raw ->
  exists y, fold_left step raw acc !! N.to_nat (Byte.to_N b) = Some y /\ 1 <= y.
Proof.
  revert acc. induction raw as [|a raw IH]; intros acc Hlen Hacc Hin;
    simpl in Hin; [contradiction|].
  destruct Hin as [->|Hin].
  - destruct (lookup_lt_is_Some_2 acc (N.to_nat (Byte.to_N b))) as [x Hx].
    { pose proof (Byte.to_N_bounded b). lia. }
    assert (0 <= x) as Hx0.
    { eapply (proj1 (Forall_lookup _ acc) Hacc); exact Hx. }
    destruct (count_fold_mono raw (step acc b) (N.to_nat (Byte.to_N b)) (x + 1))
      as (y & Hy & Hle).
    { unfold step. rewrite list_lookup_alter_eq, Hx. reflexivity. }
    exists y. split; [exact Hy | lia].
  - simpl. apply IH; [unfold step; rewrite length_alter; exact Hlen | | exact Hin].
    apply Forall_lookup. intros i x Hx. unfold step in Hx.
    destruct (decide (N.to_nat (Byte.to_N a) = i)) as [Heq|Hne]; [subst i|].
    + rewrite list_lookup_alter_eq in Hx.
      destruct (acc !! N.to_nat (Byte.to_N a)) as [z|] eqn:Hz; simpl in Hx;
        [|discriminate].
      injection Hx as <-.
      pose proof (proj1 (Forall_lookup _ acc) Hacc _ _ Hz). simpl in *. lia.
    + rewrite list_lookup_alter_ne in Hx by exact Hne.
      exact (proj1 (Forall_lookup _ acc) Hacc _ _ Hx).
Qed.

Lemma count_fold_nonneg (raw : list byte) (acc : list Z) :
  Forall (fun f => 0 <= f) acc -> Forall (fun f => 0 <= f) (fold_left step raw acc).
Proof.
  revert acc. induction raw as [|a raw IH]; intros acc Hacc; simpl; [exact Hacc|].
  apply IH. apply Forall_lookup. intros i x Hx. unfold step in Hx.
  destruct (decide (N.to_nat (Byte.to_N a) = i)) as [Heq|Hne]; [subst i|].
  - rewrite list_lookup_alter_eq in Hx.
    destruct (acc !! N.to_nat (Byte.to_N a)) as [z|] eqn:Hz; simpl in Hx;
      [|discriminate].
    injection Hx as <-.
    pose proof (proj1 (Forall_lookup _ acc) Hacc _ _ Hz). simpl in *. lia.
  - rewrite list_lookup_alter_ne in Hx by exact Hne.
    exact (proj1 (Forall_lookup _ acc) Hacc _ _ Hx).
Qed.

Lemma count_fold_absent (raw : list byte) (acc : list Z) (i : nat) :
  (forall b, In b raw -> N.to_nat (Byte.to_N b) <> i) ->
  fold_left step raw acc !! i = acc !! i.
Proof.
  revert acc. induction raw as [|a raw IH]; intros acc Hno; simpl; [reflexivity|].
  rewrite IH by (intros b Hb; apply Hno; right; exact Hb).
  unfold step. apply list_lookup_alter_ne. apply Hno. left. reflexivity.
Qed.

End Counting.

Lemma replicate_zero_nonneg (n : nat) : Forall (fun f => 0 <= f) (replicate n 0).
Proof. apply Forall_replicate. lia. Qed.

Lemma sum_replicate_zero (n : nat) : Py.sum (replicate n 0) = 0.
Proof. induction n as [|n IH]; simpl; [reflexivity|]. rewrite sum_cons. lia. Qed.

Lemma count_bytes_length (raw : list byte) : length (count_bytes raw) = 256%nat.
Proof. unfold count_bytes. rewrite count_fold_length. apply length_replicate. Qed.

Lemma count_bytes_nonneg (raw : list byte) : Forall (fun f => 0 <= f) (count_bytes raw).
Proof. apply count_fold_nonneg, replicate_zero_nonneg. Qed.

Lemma count_bytes_sum (raw : list byte) :
  Py.sum (count_bytes raw) = Z.of_nat (length raw).
Proof.
  unfold count_bytes. rewrite count_fold_sum by apply length_replicate.
  rewrite sum_replicate_zero. lia.
Qed.

Lemma count_bytes_present (raw : list byte) (b : byte) :
  In b raw ->
  exists y, count_bytes raw !! N.to_nat (Byte.to_N b) = Some y /\ 1 <= y.
Proof.
  apply count_fold_present; [apply length_replicate | apply replicate_zero_nonneg].
Qed.

(** ** The redistribution loop *)

Lemma raise_pass_snd (limit : Z) (freqs : list Z) :
  snd (raise_pass limit freqs) = map (raised limit) freqs.
Proof.
  induction freqs as [|f rest IH]; [reflexivity|]. simpl.
  destruct (raise_pass limit rest) as [added rest'] eqn:E. simpl in IH. subst rest'.
  change (raised limit f) with (if negb (f =? 0) && (f <? limit) then limit else f).
  destruct (negb (f =? 0) && (f <? limit)); simpl; reflexivity.
Qed.

Lemma raise_pass_fst (limit : Z) (freqs : list Z) :
  fst (raise_pass limit freqs) + Py.sum freqs = Py.sum (map (raised limit) freqs).
Proof.
  induction freqs as [|f rest IH]; [reflexivity|]. simpl.
  destruct (raise_pass limit rest) as [added rest'] eqn:E. simpl in IH.
  rewrite !sum_cons.
  change (raised limit f) with (if negb (f =? 0) && (f <? limit) then limit else f).
  destruct (negb (f =? 0) && (f <? limit)); simpl; lia.
Qed.

Lemma raise_pass_added_nonneg (limit : Z) (freqs : list Z) :
  0 <= fst (raise_pass limit freqs).
Proof.
  induction freqs as [|f rest IH]; simpl; [lia|].
  destruct (raise_pass limit rest) as [added rest'] eqn:E. simpl in IH.
  destruct (Z.eqb_spec f 0), (Z.ltb_spec f limit); simpl; lia.
Qed.

Lemma raise_pass_settled (limit : Z) (freqs : list Z) :
  fst (raise_pass limit freqs) = 0 <->
  Forall (fun f => f = 0 \/ limit <= f) freqs.
Proof.
  induction freqs as [|f rest IH]; simpl.
  - split; [constructor | reflexivity].
  - pose proof (raise_pass_added_nonneg limit rest) as Hnn.
    destruct (raise_pass limit rest) as [added rest'] eqn:E. simpl in IH, Hnn.
    rewrite Forall_cons.
    destruct (Z.eqb_spec f 0), (Z.ltb_spec f limit); simpl;
      rewrite <- IH; split; intros; try split; try lia; tauto.
Qed.

Lemma raised_fixed (limit : Z) (freqs : list Z) :
  Forall (fun f => f = 0 \/ limit <= f) freqs -> map (raised limit) freqs = freqs.
Proof.
  induction 1 as [|f rest Hf _ IH]; [reflexivity|]. simpl. rewrite IH. f_equal.
  unfold raised. destruct (Z.eqb_spec f 0), (Z.ltb_spec f limit); simpl; lia.
Qed.

Lemma raised_floor (limit : Z) (freqs : list Z) :
  Forall (fun f => 0 <= f) freqs ->
  Forall (fun f => f = 0 \/ limit <= f) (map (raised limit) freqs).
Proof.
  induction 1 as [|f rest Hf _ IH]; simpl; constructor; [|exact IH].
  unfold raised. destruct (Z.eqb_spec f 0), (Z.ltb_spec f limit); simpl; lia.
Qed.

Lemma raised_nonneg (limit : Z) (freqs : list Z) :
  Forall (fun f => 0 <= f) freqs -> Forall (fun f => 0 <= f) (map (raised limit) freqs).
Proof.
  induction 1 as [|f rest Hf _ IH]; simpl; constructor; [|exact IH].
  unfold raised. destruct (Z.eqb_spec f 0), (Z.ltb_spec f limit); simpl; lia.
Qed.

Lemma raised_excess (p limit : Z) (freqs : list Z) :
  p <= limit -> excess limit (map (raised limit) freqs) <= excess p freqs.
Proof.
  intros Hp. unfold excess.
  induction freqs as [|f rest IH]; simpl; [reflexivity|]. rewrite !sum_cons.
  unfold raised at 1. destruct (Z.eqb_spec f 0), (Z.ltb_spec f limit); simpl; lia.
Qed.

Lemma sum_le_excess (p : Z) (freqs : list Z) :
  0 <= p -> Py.sum freqs <= excess p freqs + Z.of_nat (length freqs) * p.
Proof.
  intros Hp. unfold excess.
  induction freqs as [|f rest IH]; [simpl; reflexivity|].
  cbn [map length]. rewrite !sum_cons. lia.
Qed.

Lemma excess_zero (freqs : list Z) :
  Forall (fun f => 0 <= f) freqs -> excess 0 freqs = Py.sum freqs.
Proof.
  unfold excess. induction 1 as [|f rest Hf _ IH]; [reflexivity|].
  cbn [map]. rewrite !sum_cons. lia.
Qed.

Lemma grown_refl (freqs : list Z) : grown freqs freqs.
Proof. induction freqs; constructor; [split; [tauto|lia] | assumption]. Qed.

Lemma grown_trans (a b c : list Z) : grown a b -> grown b c -> grown a c.
Proof.
  intros Hab. revert c. induction Hab as [|x y a b [Hz Hle] _ IH]; intros c Hbc;
    inversion Hbc as [|? z ? c' [Hz' Hle'] Hbc']; subst; constructor.
  - split; [tauto | lia].
  - apply IH, Hbc'.
Qed.

Lemma grown_raised (limit : Z) (freqs : list Z) :
  Forall (fun f => 0 <= f) freqs -> grown freqs (map (raised limit) freqs).
Proof.
  induction 1 as [|f rest Hf _ IH]; simpl; constructor; [|exact IH].
  unfold raised. destruct (Z.eqb_spec f 0), (Z.ltb_spec f limit); simpl; lia.
Qed.

(** What the loop has established when it stops. *)
Lemma redistribute_post (fuel : nat) (freqs : list Z) (total : Z)
    (freqs' : list Z) (total' : Z) :
  Forall (fun f => 0 <= f) freqs -> total = Py.sum freqs ->
  redistribute fuel 4096 freqs total = Ok (freqs', total') ->
  total' = Py.sum freqs' /\ total <= total' /\
  grown freqs freqs' /\
  Forall (fun f => 0 <= f) freqs' /\
  Forall (fun f => f = 0 \/ total' / 4096 + 1 <= f) freqs'.
Proof.
  revert freqs total. induction fuel as [|fuel IH]; intros freqs total Hnn Htot Hrun;
    simpl in Hrun; [discriminate|].
  pose proof (raise_pass_snd (total / 4096 + 1) freqs) as Hsnd.
  pose proof (raise_pass_fst (total / 4096 + 1) freqs) as Hfst.
  pose proof (raise_pass_settled (total / 4096 + 1) freqs) as Hset.
  pose proof (raise_pass_added_nonneg (total / 4096 + 1) freqs) as Hadd.
  destruct (raise_pass (total / 4096 + 1) freqs) as [added fs] eqn:E.
  simpl in Hsnd, Hfst, Hset, Hadd. subst fs.
  destruct (Z.eqb_spec added 0) as [Hz|Hz].
  - injection Hrun as <- <-.
    pose proof (proj1 Hset Hz) as Hall.
    rewrite (raised_fixed _ _ Hall).
    repeat split; [exact Htot | lia | apply grown_refl | exact Hnn | exact Hall].
  - apply IH in Hrun; [|apply raised_nonneg, Hnn | lia].
    destruct Hrun as (H1 & H2 & H3 & H4 & H5).
    repeat split; [exact H1 | lia | | exact H4 | exact H5].
    eapply grown_trans; [apply grown_raised, Hnn | exact H3].
Qed.

(** The loop stops: the level [p] the frequencies have been raised to grows
    with every pass that changes something and cannot pass
    [(N + 4096) / 3840], [N] being the length of the corpus. *)
Lemma redistribute_terminates (fuel : nat) (freqs : list Z) (total p N : Z) :
  length freqs = 256%nat ->
  Forall (fun f => 0 <= f) freqs ->
  total = Py.sum freqs ->
  Forall (fun f => f = 0 \/ p <= f) freqs ->
  excess p freqs <= N ->
  0 <= p -> 3840 * p <= N + 4096 ->
  (N + 4096) / 3840 - p + 1 <= Z.of_nat fuel ->
  exists r, redistribute fuel 4096 freqs total = Ok r.
Proof.
  revert freqs total p.
  induction fuel as [|fuel IH]; intros freqs total p Hlen Hnn Htot Hlow Hex Hp Hbd Hfuel.
  - exfalso.
    assert ((N + 4096) / 3840 < p) as Hlt by lia.
    pose proof (Z.mul_div_le (N + 4096) 3840 ltac:(lia)).
    pose proof (Z.mod_pos_bound (N + 4096) 3840 ltac:(lia)).
    pose proof (Z.div_mod (N + 4096) 3840 ltac:(lia)). lia.
  - simpl.
    pose proof (raise_pass_snd (total / 4096 + 1) freqs) as Hsnd.
    pose proof (raise_pass_fst (total / 4096 + 1) freqs) as Hfst.
    pose proof (raise_pass_settled (total / 4096 + 1) freqs) as Hset.
    destruct (raise_pass (total / 4096 + 1) freqs) as [added fs] eqn:E.
    simpl in Hsnd, Hfst, Hset. subst fs.
    destruct (Z.eqb_spec added 0) as [Hz|Hz]; [eauto|].
    set (limit := total / 4096 + 1) in *.
    assert (p < limit) as Hlim.
    { destruct (Z.lt_ge_cases p limit) as [?|Hge]; [assumption|]. exfalso.
      apply Hz, Hset. eapply Forall_impl; [exact Hlow|]. simpl. intros f Hf. lia. }
    pose proof (sum_le_excess p freqs Hp) as Hsum. rewrite Hlen in Hsum.
    assert (3840 * limit <= N + 4096) as Hbd'.
    { pose proof (Z.mul_div_le total 4096 ltac:(lia)). unfold limit. lia. }
    apply (IH _ _ limit).
    + rewrite length_map. exact Hlen.
    + apply raised_nonneg, Hnn.
    + lia.
    + apply raised_floor, Hnn.
    + pose proof (raised_excess p limit freqs ltac:(lia)). lia.
    + lia.
    + exact Hbd'.
    + lia.
Qed.

(** ** The final scaling *)

Lemma scale_Ok (enc_total total : Z) (freqs : list Z) :
  total <> 0 ->
  scale enc_total total freqs = Ok (map (fun f => f * enc_total / total) freqs).
Proof.
  intros Ht. induction freqs as [|f rest IH]; [reflexivity|]. simpl.
  unfold floordiv. destruct (Z.eqb_spec total 0) as [?|_]; [contradiction|].
  simpl. rewrite IH. reflexivity.
Qed.

Lemma scale_zero_total (enc_total : Z) (freqs : list Z) :
  freqs <> [] -> scale enc_total 0 freqs = Raise ZeroDivisionError.
Proof. destruct freqs as [|f rest]; [congruence|]. reflexivity. Qed.

Section Scaling.

Variable T : Z.
Hypothesis T_pos : 0 < T.

Let scaled (f : Z) : Z := f * 4096 / T.

Lemma scaled_nonneg (freqs : list Z) :
  Forall (fun f => 0 <= f) freqs -> Forall (fun f => 0 <= f) (map scaled freqs).
Proof.
  induction 1 as [|f rest Hf _ IH]; simpl; constructor; [|exact IH].
  unfold scaled. apply Z.div_pos; lia.
Qed.

Lemma scaled_sum_upper (freqs : list Z) :
  T * Py.sum (map scaled freqs) <= 4096 * Py.sum freqs.
Proof.
  induction freqs as [|f rest IH]; [change (T * 0 <= 4096 * 0); lia|].
  cbn [map]. rewrite !sum_cons. unfold scaled at 1.
  pose proof (Z.mul_div_le (f * 4096) T T_pos). lia.
Qed.

Lemma scaled_sum_lower (freqs : list Z) :
  4096 * Py.sum freqs - T * Z.of_nat (length freqs) + Z.of_nat (length freqs)
  <= T * Py.sum (map scaled freqs).
Proof.
  induction freqs as [|f rest IH]; [change (4096 * 0 - T * 0 + 0 <= T * 0); lia|].
  cbn [map length]. rewrite !sum_cons. unfold scaled at 1.
  pose proof (Z.mod_pos_bound (f * 4096) T T_pos).
  pose proof (Z.div_mod (f * 4096) T ltac:(lia)). lia.
Qed.

Lemma scaled_present (f : Z) : T / 4096 + 1 <= f -> 1 <= scaled f.
Proof.
  intros Hf. unfold scaled.
  pose proof (Z.mod_pos_bound T 4096 ltac:(lia)).
  pose proof (Z.div_mod T 4096 ltac:(lia)).
  apply Z.div_le_lower_bound; lia.
Qed.

Lemma scaled_absent : scaled 0 = 0.
Proof. unfold scaled. apply Z.div_0_l. lia. Qed.

End Scaling.

(** ** The table [generate_frequency_table] returns *)

Lemma generate_frequency_table_spec (raw : list byte) :
  raw <> [] ->
  exists (freqs : list Z) (total : Z),
    length freqs = 256%nat /\
    Forall (fun f => 0 <= f) freqs /\
    total = Py.sum freqs /\ 1 <= total /\
    grown (count_bytes raw) freqs /\
    Forall (fun f => f = 0 \/ total / 4096 + 1 <= f) freqs /\
    generate_frequency_table raw = Ok (map (fun f => f * 4096 / total) freqs).
Proof.
  intros Hne.
  assert (1 <= Z.of_nat (length raw)) as Hlen.
  { destruct raw; [congruence | simpl; lia]. }
  destruct (redistribute_terminates (passes raw) (count_bytes raw)
              (Py.sum (count_bytes raw)) 0 (Z.of_nat (length raw)))
    as [[freqs total] Hrun].
  - apply count_bytes_length.
  - apply count_bytes_nonneg.
  - reflexivity.
  - eapply Forall_impl; [apply count_bytes_nonneg|]. simpl. intros; lia.
  - rewrite excess_zero by apply count_bytes_nonneg. rewrite count_bytes_sum. lia.
  - lia.
  - lia.
  - unfold passes. rewrite Z.sub_0_r.
    assert ((Z.of_nat (length raw) + 4096) / 3840 <= Z.of_nat (length raw) + 2); [|lia].
    apply Z.lt_succ_r. apply Z.div_lt_upper_bound; lia.
  - pose proof (redistribute_post _ _ _ _ _ (count_bytes_nonneg raw) eq_refl Hrun)
      as (H1 & H2 & H3 & H4 & H5).
    rewrite count_bytes_sum in H2.
    exists freqs, total. repeat split; try assumption.
    + rewrite <- (Forall2_length _ _ _ H3). apply count_bytes_length.
    + lia.
    + unfold generate_frequency_table, generate_frequency_table_fuel.
      change (Z.shiftl 1 MODEL_BITS) with 4096. rewrite Hrun. simpl.
      apply scale_Ok. lia.
Qed.

Lemma generate_frequency_table_empty :
  generate_frequency_table [] = Raise ZeroDivisionError.
Proof. vm_compute. reflexivity. Qed.

Lemma generate_frequency_table_Ok (raw : list byte) (freqs : list Z) :
  generate_frequency_table raw = Ok freqs -> raw <> [].
Proof. intros H ->. rewrite generate_frequency_table_empty in H. discriminate. Qed.

(** ** The running sums *)

Lemma prefix_sums_length (cf : Z) (freqs : list Z) :
  length (prefix_sums cf freqs) = length freqs.
Proof.
  revert cf. induction freqs as [|f rest IH]; intros cf; simpl; [reflexivity|].
  rewrite IH. reflexivity.
Qed.

Lemma prefix_sums_lookup (cf : Z) (freqs : list Z) (i : nat) :
  (i < length freqs)%nat ->
  prefix_sums cf freqs !! i = Some (cf + Py.sum (take i freqs)).
Proof.
  revert cf i. induction freqs as [|f rest IH]; intros cf [|i] Hi; simpl in Hi;
    try lia.
  - simpl. f_equal. change (Py.sum []) with 0. lia.
  - simpl. rewrite IH by lia. rewrite sum_cons. f_equal. lia.
Qed.

Lemma sum_take_S (freqs : list Z) (i : nat) (f : Z) :
  freqs !! i = Some f -> Py.sum (take (S i) freqs) = Py.sum (take i freqs) + f.
Proof.
  intros Hf. rewrite (take_S_r _ _ _ Hf), sum_app, sum_cons.
  change (Py.sum []) with 0. lia.
Qed.

Lemma sum_take_mono (freqs : list Z) (i j : nat) :
  Forall (fun f => 0 <= f) freqs -> (i <= j)%nat ->
  Py.sum (take i freqs) <= Py.sum (take j freqs).
Proof.
  intros Hnn Hij. induction Hij as [|j Hij IH]; [lia|].
  destruct (freqs !! j) as [f|] eqn:Hf.
  - rewrite (sum_take_S _ _ _ Hf).
    pose proof (proj1 (Forall_lookup _ freqs) Hnn _ _ Hf). simpl in *. lia.
  - apply lookup_ge_None_1 in Hf.
    rewrite (take_ge freqs (S j)) by lia. rewrite (take_ge freqs j) in IH by lia.
    exact IH.
Qed.

Lemma sum_take_le (freqs : list Z) (i : nat) :
  Forall (fun f => 0 <= f) freqs -> Py.sum (take i freqs) <= Py.sum freqs.
Proof.
  intros Hnn. destruct (Nat.le_gt_cases i (length freqs)) as [Hi|Hi].
  - rewrite <- (take_ge freqs (length freqs)) at 2 by lia.
    apply sum_take_mono; assumption.
  - rewrite take_ge by lia. lia.
Qed.

(** ** Models built by the constructor *)

Lemma StaticModel_init_wf (D : list byte) (M : StaticModel) :
  StaticModel_init D = Ok M -> wf_model M.
Proof.
  unfold StaticModel_init. intros H.
  apply bind_Ok in H as (fs & Hgen & HM). injection HM as <-.
  pose proof (generate_frequency_table_Ok _ _ Hgen) as Hne.
  destruct (generate_frequency_table_spec D Hne)
    as (freqs & total & Hlen & Hnn & Htot & Hpos & _ & _ & Heq).
  rewrite Heq in Hgen. injection Hgen as <-.
  unfold wf_model. simpl. repeat split.
  - rewrite length_map. exact Hlen.
  - apply scaled_nonneg; [lia | exact Hnn].
  - pose proof (scaled_sum_upper total ltac:(lia) freqs) as Hup.
    change (2 ^ MODEL_BITS) with 4096. rewrite <- Htot in Hup. nia.
Qed.

Lemma wf_freq (M : StaticModel) (s : Z) :
  wf_model M -> 0 <= s < 256 ->
  exists f, _freqs M !! Z.to_nat s = Some f /\ freq M s = Ok f /\ 0 <= f <= 4096.
Proof.
  intros (Hlen & Hnn & Hsum & _) Hs.
  destruct (getitem_in_range (_freqs M) s) as (f & Hf & Hget); [lia|].
  exists f. repeat split; try assumption.
  - exact (proj1 (Forall_lookup _ _) Hnn _ _ Hf).
  - pose proof (sum_lookup_le _ _ _ Hnn Hf). change (2 ^ MODEL_BITS) with 4096 in Hsum.
    lia.
Qed.

Lemma wf_cdf (M : StaticModel) (s : Z) :
  wf_model M -> 0 <= s < 256 ->
  _cdf M !! Z.to_nat s = Some (Py.sum (take (Z.to_nat s) (_freqs M))) /\
  cdf M s = Ok (Py.sum (take (Z.to_nat s) (_freqs M))).
Proof.
  intros (Hlen & Hnn & Hsum & Hcdf) Hs.
  assert (_cdf M !! Z.to_nat s = Some (Py.sum (take (Z.to_nat s) (_freqs M)))) as Hl.
  { rewrite Hcdf, prefix_sums_lookup by lia. f_equal. }
  split; [exact Hl|].
  unfold cdf. rewrite <- (Z2Nat.id s) at 1 by lia. apply getitem_Ok, Hl.
Qed.

(** A symbol's slots end inside the table. *)
Lemma wf_cdf_freq (M : StaticModel) (s c f : Z) :
  wf_model M -> 0 <= s < 256 -> cdf M s = Ok c -> freq M s = Ok f ->
  0 <= c /\ 0 <= f /\ c + f <= 4096.
Proof.
  intros Hwf Hs Hc Hf.
  destruct (wf_freq M s Hwf Hs) as (f' & Hlf & Hf' & Hfr).
  destruct (wf_cdf M s Hwf Hs) as (_ & Hc').
  rewrite Hc' in Hc. injection Hc as <-. rewrite Hf' in Hf. injection Hf as <-.
  destruct Hwf as (Hlen & Hnn & Hsum & _).
  change (2 ^ MODEL_BITS) with 4096 in Hsum.
  pose proof (sum_take_S _ _ _ Hlf) as HS.
  pose proof (sum_take_le (_freqs M) (S (Z.to_nat s)) Hnn).
  pose proof (sum_nonneg _ (Forall_take _ (Z.to_nat s) _ Hnn)).
  lia.
Qed.

(** ** The frequency model: claims *)

(** C9. Building a model from the empty corpus returns no model: the
    redistribution loop stops at once with [total = 0], and the final
    scaling then divides by zero. *)
Theorem empty_corpus_division_by_zero :
  StaticModel_init [] = Raise ZeroDivisionError /\
  exists freqs,
    redistribute (passes []) (Z.shiftl 1 MODEL_BITS) (count_bytes [])
      (Py.sum (count_bytes [])) = Ok (freqs, 0) /\
    scale (Z.shiftl 1 MODEL_BITS) 0 freqs = Raise ZeroDivisionError.
Proof.
  split; [vm_compute; reflexivity|].
  eexists. split; vm_compute; reflexivity.
Qed.

(** C3, as the claim states it, fails: the corpus [aab] gives the
    frequencies 2730 and 1365, whose sum is 4095. *)
Lemma sum_invariant_counterexample :
  exists M, StaticModel_init corpus_aab = Ok M /\
            Py.sum (_freqs M) = 4095 /\ Py.sum (_freqs M) <> 2 ^ MODEL_BITS.
Proof.
  eexists. split; [vm_compute; reflexivity|]. split; vm_compute; congruence.
Qed.

(** C3, amended. The 256 normalized frequencies of a model built from a
    corpus sum to at most [2^MODEL_BITS = 4096] and to more than
    [4096 - 256]: each of them is rounded down, and loses less than one. *)
Theorem sum_of_frequencies (D : list byte) (M : StaticModel) :
  StaticModel_init D = Ok M ->
  length (_freqs M) = 256%nat /\
  2 ^ MODEL_BITS - 256 < Py.sum (_freqs M) <= 2 ^ MODEL_BITS.
Proof.
  intros HM. pose proof (StaticModel_init_wf D M HM) as (Hlen & _ & Hup & _).
  split; [exact Hlen|]. split; [|exact Hup].
  unfold StaticModel_init in HM.
  apply bind_Ok in HM as (fs & Hgen & HM). injection HM as <-. simpl.
  pose proof (generate_frequency_table_Ok _ _ Hgen) as Hne.
  destruct (generate_frequency_table_spec D Hne)
    as (freqs & total & Hl & Hnn & Htot & Hpos & _ & _ & Heq).
  rewrite Heq in Hgen. injection Hgen as <-.
  pose proof (scaled_sum_lower total ltac:(lia) freqs) as Hlow.
  rewrite Hl, <- Htot in Hlow. change (2 ^ MODEL_BITS) with 4096. nia.
Qed.

Lemma sum_of_frequencies_witness :
  exists M, StaticModel_init corpus_aab = Ok M /\
            length (_freqs M) = 256%nat /\
            2 ^ MODEL_BITS - 256 < Py.sum (_freqs M) <= 2 ^ MODEL_BITS.
Proof.
  eexists. split; [vm_compute; reflexivity|].
  apply (sum_of_frequencies corpus_aab). vm_compute. reflexivity.
Defined.

(** C4. Every byte value that occurs in a non-empty corpus gets a
    normalized frequency of at least 1 in the model built from it. *)
Theorem frequency_coverage (D : list byte) (v : byte) :
  In v D ->
  exists M f, StaticModel_init D = Ok M /\
              freq M (int_of_byte v) = Ok f /\ 1 <= f.
Proof.
  intros Hin.
  assert (D <> []) as Hne by (intros ->; contradiction).
  destruct (generate_frequency_table_spec D Hne)
    as (freqs & total & Hl & Hnn & Htot & Hpos & Hgrown & Hfloor & Heq).
  destruct (count_bytes_present D v Hin) as (y & Hy & Hy1).
  destruct (Forall2_lookup_l _ _ _ _ _ Hgrown Hy) as (g & Hg & Hz & Hle).
  pose proof (proj1 (Forall_lookup _ _) Hfloor _ _ Hg) as Hfl. simpl in Hfl.
  eexists. exists (g * 4096 / total).
  unfold StaticModel_init. rewrite Heq. simpl. split; [reflexivity|]. split.
  - unfold freq. simpl.
    rewrite <- (Z2Nat.id (int_of_byte v)) by apply int_of_byte_range.
    apply getitem_Ok. rewrite int_of_byte_index, list_lookup_fmap, Hg. reflexivity.
  - apply scaled_present; lia.
Qed.

Lemma frequency_coverage_witness :
  In "b"%byte corpus_aaab /\
  exists M f, StaticModel_init corpus_aaab = Ok M /\
              freq M (int_of_byte "b"%byte) = Ok f /\ 1 <= f.
Proof.
  assert (In "b"%byte corpus_aaab) as Hin by (simpl; tauto).
  split; [exact Hin | exact (frequency_coverage corpus_aaab "b"%byte Hin)].
Defined.

(** C8. The cdf of a model built from a corpus has 256 entries, starts at
    0, is the running sum of the frequencies, and never decreases. *)
Theorem cdf_well_formed (D : list byte) (M : StaticModel) :
  StaticModel_init D = Ok M ->
  length (_cdf M) = 256%nat /\
  cdf M 0 = Ok 0 /\
  (forall i, 0 <= i <= 254 ->
     exists c f, cdf M i = Ok c /\ freq M i = Ok f /\ cdf M (i + 1) = Ok (c + f)) /\
  (forall i j ci cj, 0 <= i <= j -> j < 256 ->
     cdf M i = Ok ci -> cdf M j = Ok cj -> ci <= cj).
Proof.
  intros HM. pose proof (StaticModel_init_wf D M HM) as Hwf.
  pose proof Hwf as (Hlen & Hnn & Hsum & Hcdf).
  split; [rewrite Hcdf, prefix_sums_length; exact Hlen|].
  split; [exact (proj2 (wf_cdf M 0 Hwf ltac:(lia)))|].
  split.
  - intros i Hi.
    destruct (wf_freq M i Hwf ltac:(lia)) as (f & Hlf & Hf & _).
    destruct (wf_cdf M i Hwf ltac:(lia)) as (_ & Hc).
    destruct (wf_cdf M (i + 1) Hwf ltac:(lia)) as (_ & Hc').
    exists (Py.sum (take (Z.to_nat i) (_freqs M))), f.
    split; [exact Hc|]. split; [exact Hf|].
    rewrite Hc'. f_equal.
    replace (Z.to_nat (i + 1)) with (S (Z.to_nat i)) by lia.
    apply sum_take_S, Hlf.
  - intros i j ci cj Hij Hj Hci Hcj.
    destruct (wf_cdf M i Hwf ltac:(lia)) as (_ & Hc).
    destruct (wf_cdf M j Hwf ltac:(lia)) as (_ & Hc').
    rewrite Hc in Hci. rewrite Hc' in Hcj. injection Hci as <-. injection Hcj as <-.
    apply sum_take_mono; [exact Hnn | lia].
Qed.

Lemma cdf_well_formed_witness :
  exists M, StaticModel_init corpus_aaab = Ok M /\
    length (_cdf M) = 256%nat /\
    cdf M 0 = Ok 0 /\
    (forall i, 0 <= i <= 254 ->
       exists c f, cdf M i = Ok c /\ freq M i = Ok f /\ cdf M (i + 1) = Ok (c + f)) /\
    (forall i j ci cj, 0 <= i <= j -> j < 256 ->
       cdf M i = Ok ci -> cdf M j = Ok cj -> ci <= cj).
Proof.
  eexists. split; [vm_compute; reflexivity|].
  apply (cdf_well_formed corpus_aaab). vm_compute. reflexivity.
Defined.

(** ** Shifts and masks as arithmetic *)

Lemma shiftr8 (X : Z) : Z.shiftr X 8 = X / 256.
Proof. rewrite Z.shiftr_div_pow2 by lia. reflexivity. Qed.

Lemma land255 (X : Z) : Z.land X 255 = X mod 256.
Proof. change 255 with (Z.ones 8). rewrite Z.land_ones by lia. reflexivity. Qed.

Lemma shiftr_model_bits (X : Z) : Z.shiftr X MODEL_BITS = X / 4096.
Proof. unfold MODEL_BITS. rewrite Z.shiftr_div_pow2 by lia. reflexivity. Qed.

Lemma shiftl_model_bits (X : Z) : Z.shiftl X MODEL_BITS = X * 4096.
Proof. unfold MODEL_BITS. rewrite Z.shiftl_mul_pow2 by lia. reflexivity. Qed.

Lemma land_mask (X : Z) : Z.land X MASK = X mod 4096.
Proof. change MASK with (Z.ones 12). rewrite Z.land_ones by lia. reflexivity. Qed.

Lemma testbit_above (b n k : Z) :
  0 <= b < 2 ^ n -> n <= k -> Z.testbit b k = false.
Proof.
  intros Hb Hk. destruct (Z.eq_dec b 0) as [->|Hne]; [apply Z.bits_0|].
  apply Z.bits_above_log2; [lia|].
  assert (Z.log2 b < n); [|lia]. apply Z.log2_lt_pow2; lia.
Qed.

Lemma lor_shiftl_low (a b n : Z) :
  0 <= n -> 0 <= b < 2 ^ n -> Z.lor (Z.shiftl a n) b = a * 2 ^ n + b.
Proof.
  intros Hn Hb. rewrite <- Z.shiftl_mul_pow2 by lia.
  assert (Z.land (Z.shiftl a n) b = 0) as Hdisjoint.
  { apply Z.bits_inj'. intros k Hk. rewrite Z.land_spec, Z.bits_0.
    destruct (Z.lt_ge_cases k n) as [Hlt|Hge].
    - rewrite Z.shiftl_spec_low by lia. reflexivity.
    - rewrite (testbit_above b n k), andb_false_r by lia. reflexivity. }
  rewrite <- Z.lxor_lor by exact Hdisjoint.
  symmetry. apply Z.add_nocarry_lxor, Hdisjoint.
Qed.

(** ** [bytes], [struct.pack] and [struct.unpack] *)

Lemma bytes_Ok (l : list Z) :
  Forall byte_sized l -> exists bs, bytes l = Ok bs /\ map int_of_byte bs = l.
Proof.
  induction 1 as [|x l Hx _ (bs & Hbs & Hmap)]; [exists []; split; reflexivity|].
  unfold byte_sized in Hx. simpl.
  destruct (Z.leb_spec 0 x) as [_|?]; [|lia].
  destruct (Z.ltb_spec x 256) as [_|?]; [|lia]. simpl.
  destruct (Byte.of_N (Z.to_N x)) as [b|] eqn:Hb.
  - rewrite Hbs. simpl. exists (b :: bs). split; [reflexivity|].
    simpl. rewrite Hmap. f_equal. unfold int_of_byte.
    rewrite (Byte.to_of_N _ Hb). lia.
  - apply Byte.of_N_None_iff in Hb. lia.
Qed.

Lemma bytes_length (l : list Z) (bs : list byte) :
  bytes l = Ok bs -> length bs = length l.
Proof.
  revert bs. induction l as [|x l IH]; intros bs H; simpl in H.
  - injection H as <-. reflexivity.
  - destruct ((0 <=? x) && (x <? 256)); [|discriminate].
    destruct (Byte.of_N (Z.to_N x)); [|discriminate].
    apply bind_Ok in H as (bs' & Hbs' & Heq). injection Heq as <-.
    simpl. rewrite (IH _ Hbs'). reflexivity.
Qed.

Lemma pack_le_u32_Ok (X : Z) :
  0 <= X < 2 ^ 32 ->
  exists b0 b1 b2 b3,
    pack_le_u32 X = Ok [b0; b1; b2; b3] /\
    int_of_byte b0 = X mod 256 /\
    int_of_byte b1 = X / 256 mod 256 /\
    int_of_byte b2 = X / 65536 mod 256 /\
    int_of_byte b3 = X / 16777216 mod 256.
Proof.
  intros HX. unfold pack_le_u32.
  destruct (Z.leb_spec 0 X) as [_|?]; [|lia].
  destruct (Z.ltb_spec X (2 ^ 32)) as [_|?]; [|lia]. cbn [andb].
  rewrite !land255, !Z.shiftr_div_pow2 by lia.
  change (2 ^ 8) with 256. change (2 ^ 16) with 65536. change (2 ^ 24) with 16777216.
  destruct (bytes_Ok [X mod 256; X / 256 mod 256; X / 65536 mod 256;
                      X / 16777216 mod 256]) as (bs & Hbs & Hmap).
  { repeat constructor; apply Z.mod_pos_bound; lia. }
  destruct bs as [|b0 [|b1 [|b2 [|b3 [|? ?]]]]]; simpl in Hmap; try discriminate.
  injection Hmap as H0 H1 H2 H3.
  exists b0, b1, b2, b3. repeat split; assumption.
Qed.

Lemma pack_le_u32_range (X : Z) (bs : list byte) :
  pack_le_u32 X = Ok bs -> 0 <= X < 2 ^ 32.
Proof.
  unfold pack_le_u32.
  destruct (Z.leb_spec 0 X), (Z.ltb_spec X (2 ^ 32)); cbn [andb];
    intros Hp; try discriminate Hp. lia.
Qed.

(** Reading the packed state backwards gives the state back. *)
Lemma unpack_rev_pack (X : Z) (bs : list byte) :
  pack_le_u32 X = Ok bs -> unpack_be_u32 (rev bs) = Ok X.
Proof.
  intros Hpack. pose proof (pack_le_u32_range X bs Hpack) as HX.
  destruct (pack_le_u32_Ok X HX) as (b0 & b1 & b2 & b3 & Hbs & H0 & H1 & H2 & H3).
  rewrite Hbs in Hpack. injection Hpack as <-. simpl. f_equal.
  pose proof (int_of_byte_range b0). pose proof (int_of_byte_range b1).
  pose proof (int_of_byte_range b2). pose proof (int_of_byte_range b3).
  rewrite (lor_shiftl_low _ (int_of_byte b0) 8) by lia.
  rewrite (lor_shiftl_low _ _ 16) by lia.
  rewrite (lor_shiftl_low _ _ 24) by lia.
  rewrite H0, H1, H2, H3.
  change (2 ^ 8) with 256. change (2 ^ 16) with 65536. change (2 ^ 24) with 16777216.
  pose proof (Z.div_mod X 256 ltac:(lia)).
  pose proof (Z.div_mod (X / 256) 256 ltac:(lia)).
  pose proof (Z.div_mod (X / 65536) 256 ltac:(lia)).
  assert (X / 256 / 256 = X / 65536) as E1 by (rewrite Z.div_div by lia; reflexivity).
  assert (X / 65536 / 256 = X / 16777216) as E2 by (rewrite Z.div_div by lia; reflexivity).
  assert (X / 16777216 mod 256 = X / 16777216) as E3.
  { apply Z.mod_small. split; [apply Z.div_pos; lia|].
    apply Z.div_lt_upper_bound; lia. }
  lia.
Qed.

(** ** The encoder's renormalization loop *)

Lemma rounds_enough (X : Z) : X < 2 ^ Z.of_nat (rounds X).
Proof.
  destruct (Z.le_gt_cases X 0) as [Hle|Hgt].
  - pose proof (Z.pow_pos_nonneg 2 (Z.of_nat (rounds X)) ltac:(lia) ltac:(lia)). lia.
  - unfold rounds. pose proof (Z.log2_nonneg X).
    replace (Z.of_nat (S (Z.to_nat (Z.log2 X)))) with (Z.succ (Z.log2 X)) by lia.
    apply Z.log2_spec. lia.
Qed.

Lemma renorm_out_spec (fuel : nat) (H X : Z) (outbuf : list Z) :
  0 < H -> 0 <= X < 2 ^ Z.of_nat fuel ->
  exists X' outbuf',
    renorm_out fuel H X outbuf = Ok (X', outbuf') /\
    0 <= X' < H /\
    (forall lo, 256 * lo <= H -> lo <= X -> lo <= X') /\
    (Forall byte_sized outbuf -> Forall byte_sized outbuf').
Proof.
  intros HH. revert X outbuf.
  induction fuel as [|fuel IH]; intros X outbuf HX; simpl.
  - change (2 ^ Z.of_nat 0) with 1 in HX.
    destruct (Z.geb_spec X H) as [?|?]; [lia|].
    exists X, outbuf. repeat split; try lia; auto.
  - destruct (Z.geb_spec X H) as [Hge|Hlt].
    + rewrite shiftr8, land255.
      assert (0 <= X / 256 < 2 ^ Z.of_nat fuel) as HX'.
      { split; [apply Z.div_pos; lia|].
        rewrite Nat2Z.inj_succ, Z.pow_succ_r in HX by lia.
        apply Z.div_lt_upper_bound; lia. }
      destruct (IH (X / 256) (outbuf ++ [X mod 256]) HX')
        as (X' & outbuf' & Hrun & Hb & Hlo & Hby).
      exists X', outbuf'. repeat split; try assumption; try lia.
      * intros lo Hl HloX. apply Hlo; [exact Hl|].
        apply Z.div_le_lower_bound; lia.
      * intros Hout. apply Hby. apply Forall_app. split; [exact Hout|].
        constructor; [|constructor]. apply Z.mod_pos_bound. lia.
    + exists X, outbuf. repeat split; try lia; auto.
Qed.

(** ** One symbol of the encoder *)

Lemma encode_symbol_spec (M : StaticModel) (X : Z) (outbuf : list Z) (b : byte) :
  wf_model M -> in_range X -> Forall byte_sized outbuf ->
  exists f,
    freq M (int_of_byte b) = Ok f /\ 0 <= f /\
    (f = 0 ->
       encode_symbol M (X, outbuf) b
       = Raise (ValueError "Cannot encode symbols with zero frequency")) /\
    (f <> 0 ->
       exists X' outbuf',
         encode_symbol M (X, outbuf) b = Ok (X', outbuf') /\
         in_range X' /\ Forall byte_sized outbuf').
Proof.
  intros Hwf HX Hout. unfold in_range in HX. change L with 8388608 in HX.
  destruct (wf_freq M _ Hwf (int_of_byte_range b)) as (f & _ & Hf & Hfr).
  destruct (wf_cdf M _ Hwf (int_of_byte_range b)) as (_ & Hc).
  pose proof (wf_cdf_freq M _ _ _ Hwf (int_of_byte_range b) Hc Hf) as (Hc0 & _ & Hcf).
  exists f. split; [exact Hf|]. split; [lia|].
  unfold encode_symbol. rewrite Hf. cbn [bind]. split.
  - intros ->. reflexivity.
  - intros Hne. destruct (Z.eqb_spec f 0) as [?|_]; [contradiction|].
    change (Z.shiftl (Z.shiftr L MODEL_BITS) 8) with 524288.
    destruct (renorm_out_spec (rounds X) (524288 * f) X outbuf)
      as (X1 & out1 & Hrun & Hb & Hlo & Hby); [lia | |].
    { split; [lia | apply rounds_enough]. }
    rewrite Hrun. cbn [bind]. rewrite Hc. cbn [bind].
    eexists _, out1. split; [reflexivity|]. split; [|exact (Hby Hout)].
    specialize (Hlo (2048 * f) ltac:(lia) ltac:(lia)).
    rewrite shiftl_model_bits. unfold in_range. change L with 8388608.
    assert (2048 <= X1 / f) by (apply Z.div_le_lower_bound; lia).
    assert (X1 / f < 524288) by (apply Z.div_lt_upper_bound; lia).
    pose proof (Z.mod_pos_bound X1 f ltac:(lia)). lia.
Qed.

(** ** The encoder's loop *)

Lemma compress_loop_spec (M : StaticModel) (raw : list byte) (X : Z)
    (outbuf : list Z) :
  wf_model M -> in_range X -> Forall byte_sized outbuf ->
  ((exists b, In b raw /\ freq M (int_of_byte b) = Ok 0) /\
   compress_loop M raw (X, outbuf)
   = Raise (ValueError "Cannot encode symbols with zero frequency"))
  \/
  ((forall b, In b raw -> freq M (int_of_byte b) <> Ok 0) /\
   exists X' outbuf',
     compress_loop M raw (X, outbuf) = Ok (X', outbuf') /\
     in_range X' /\ Forall byte_sized outbuf').
Proof.
  intros Hwf. revert X outbuf.
  induction raw as [|b rest IH]; intros X outbuf HX Hout.
  - right. split; [intros b []|]. exists X, outbuf.
    split; [reflexivity|]. split; assumption.
  - destruct (encode_symbol_spec M X outbuf b Hwf HX Hout)
      as (f & Hf & Hf0 & Hzero & Hpos).
    destruct (Z.eq_dec f 0) as [->|Hne].
    + left. split; [exists b; split; [left; reflexivity | exact Hf]|].
      cbn [compress_loop]. rewrite (Hzero eq_refl). reflexivity.
    + destruct (Hpos Hne) as (X1 & out1 & Hstep & HX1 & Hout1).
      cbn [compress_loop]. rewrite Hstep. cbn [bind].
      destruct (IH X1 out1 HX1 Hout1) as [((c & Hin & Hc) & Hrun)|(Hall & Hrun)].
      * left. split; [exists c; split; [right; exact Hin | exact Hc] | exact Hrun].
      * right. split; [|exact Hrun].
        intros c [<-|Hin]; [rewrite Hf; congruence | apply Hall, Hin].
Qed.

Lemma compress_states_in_range (M : StaticModel) (raw : list byte) (X : Z)
    (outbuf : list Z) :
  wf_model M -> in_range X -> Forall byte_sized outbuf ->
  Forall in_range (compress_states M raw (X, outbuf)).
Proof.
  intros Hwf. revert X outbuf.
  induction raw as [|b rest IH]; intros X outbuf HX Hout; cbn [compress_states fst].
  - constructor; [exact HX | constructor].
  - constructor; [exact HX|].
    destruct (encode_symbol_spec M X outbuf b Hwf HX Hout)
      as (f & Hf & Hf0 & Hzero & Hpos).
    destruct (Z.eq_dec f 0) as [->|Hne].
    + rewrite (Hzero eq_refl). constructor.
    + destruct (Hpos Hne) as (X1 & out1 & Hstep & HX1 & Hout1).
      rewrite Hstep. apply IH; assumption.
Qed.

Lemma L_in_range : in_range L.
Proof. unfold in_range. change L with 8388608. lia. Qed.

Lemma in_range_u32 (X : Z) : in_range X -> 0 <= X < 2 ^ 32.
Proof. unfold in_range. change L with 8388608. lia. Qed.

Lemma compress_of_loop (M : StaticModel) (raw : list byte) (X : Z)
    (outbuf : list Z) :
  compress_loop M raw (L, []) = Ok (X, outbuf) ->
  in_range X -> Forall byte_sized outbuf ->
  exists body state,
    bytes outbuf = Ok body /\ pack_le_u32 X = Ok state /\
    compress M raw = Ok (body ++ state).
Proof.
  intros Hrun HX Hout.
  destruct (bytes_Ok outbuf Hout) as (body & Hbody & _).
  destruct (pack_le_u32_Ok X (in_range_u32 X HX)) as (b0 & b1 & b2 & b3 & Hpack & _).
  exists body, [b0; b1; b2; b3]. split; [exact Hbody|]. split; [exact Hpack|].
  unfold compress. rewrite Hrun. cbn [bind]. rewrite Hbody. cbn [bind].
  rewrite Hpack. reflexivity.
Qed.

(** ** The encoder: claims *)

(** C6. On a model built from a corpus, [compress] raises the
    zero-frequency error exactly when the input holds a symbol of
    frequency 0; it then yields the exception and no bytes, and otherwise
    it returns a buffer. *)
Theorem encode_error (D : list byte) (M : StaticModel) (raw : list byte) :
  StaticModel_init D = Ok M ->
  (compress M raw = Raise (ValueError "Cannot encode symbols with zero frequency")
   <-> exists b, In b raw /\ freq M (int_of_byte b) = Ok 0) /\
  (compress M raw = Raise (ValueError "Cannot encode symbols with zero frequency")
   \/ exists comp, compress M raw = Ok comp).
Proof.
  intros HM. pose proof (StaticModel_init_wf D M HM) as Hwf.
  destruct (compress_loop_spec M raw L [] Hwf L_in_range (List.Forall_nil _))
    as [(Hex & Hrun)|(Hall & X & outbuf & Hrun & HX & Hout)].
  - assert (compress M raw
            = Raise (ValueError "Cannot encode symbols with zero frequency")) as E.
    { unfold compress. rewrite Hrun. reflexivity. }
    split; [tauto | left; exact E].
  - destruct (compress_of_loop M raw X outbuf Hrun HX Hout)
      as (body & state & _ & _ & E).
    split; [|right; eauto].
    rewrite E. split; [discriminate|].
    intros (b & Hin & Hb). exfalso. exact (Hall b Hin Hb).
Qed.

Lemma encode_error_witness :
  exists M, StaticModel_init corpus_aaab = Ok M /\
    (compress M ["a"; "z"]%byte
       = Raise (ValueError "Cannot encode symbols with zero frequency")
     <-> exists b, In b ["a"; "z"]%byte /\ freq M (int_of_byte b) = Ok 0) /\
    (compress M ["a"; "z"]%byte
       = Raise (ValueError "Cannot encode symbols with zero frequency")
     \/ exists comp, compress M ["a"; "z"]%byte = Ok comp).
Proof.
  eexists. split; [vm_compute; reflexivity|].
  apply (encode_error corpus_aaab). vm_compute. reflexivity.
Defined.

(** C7. Whenever [compress] returns a buffer, the buffer is the
    renormalization bytes followed by the final state packed little-endian,
    and the decoder's first step, which reverses the buffer and unpacks its
    first four bytes big-endian, finds exactly that final state. *)
Theorem final_state_recovery (M : StaticModel) (raw comp : list byte) :
  compress M raw = Ok comp ->
  exists X outbuf body state,
    compress_loop M raw (L, []) = Ok (X, outbuf) /\
    bytes outbuf = Ok body /\ pack_le_u32 X = Ok state /\
    comp = body ++ state /\
    read_state comp = Ok (X, rev body).
Proof.
  unfold compress. intros H.
  apply bind_Ok in H as ([X outbuf] & Hrun & H).
  apply bind_Ok in H as (body & Hbody & H).
  apply bind_Ok in H as (state & Hpack & H). injection H as <-.
  exists X, outbuf, body, state. repeat split; try assumption.
  pose proof (pack_le_u32_range X state Hpack) as HX.
  destruct (pack_le_u32_Ok X HX) as (b0 & b1 & b2 & b3 & Hbs & _).
  assert (length (rev state) = 4%nat) as Hlen.
  { rewrite length_rev. rewrite Hbs in Hpack. injection Hpack as <-. reflexivity. }
  unfold read_state, read. rewrite rev_app_distr.
  rewrite take_app_length', drop_app_length' by (symmetry; exact Hlen).
  rewrite (unpack_rev_pack X state Hpack). reflexivity.
Qed.

Lemma final_state_recovery_witness :
  exists M comp,
    StaticModel_init corpus_aaab = Ok M /\
    compress M corpus_aaab = Ok comp /\
    exists X outbuf body state,
      compress_loop M corpus_aaab (L, []) = Ok (X, outbuf) /\
      bytes outbuf = Ok body /\ pack_le_u32 X = Ok state /\
      comp = body ++ state /\
      read_state comp = Ok (X, rev body).
Proof.
  eexists. eexists. split; [vm_compute; reflexivity|].
  split; [vm_compute; reflexivity|].
  apply final_state_recovery. vm_compute. reflexivity.
Defined.

(** ** Building the inverse table *)

Lemma setitem_Ok {A : Type} (l : list A) (i : Z) (v : A) :
  0 <= i < Z.of_nat (length l) -> setitem l i v = Ok (<[Z.to_nat i := v]> l).
Proof.
  intros Hi. unfold setitem.
  destruct (Z.ltb_spec i 0) as [?|_]; [lia|].
  destruct (Z.leb_spec 0 i) as [_|?]; [|lia].
  destruct (Z.ltb_spec i (Z.of_nat (length l))) as [_|?]; [|lia].
  reflexivity.
Qed.

Lemma fill_slots_spec (fuel : nat) (symbol_table : list Z) (cursor up s : Z) :
  0 <= cursor -> up <= Z.of_nat (length symbol_table) ->
  Z.of_nat (length symbol_table) - cursor < Z.of_nat fuel ->
  exists table',
    fill_slots fuel symbol_table cursor up s = Ok (table', Z.max cursor up) /\
    length table' = length symbol_table /\
    (forall i : nat, cursor <= Z.of_nat i < up -> table' !! i = Some (s - 1)) /\
    (forall i : nat, ~ (cursor <= Z.of_nat i < up) -> table' !! i = symbol_table !! i).
Proof.
  revert symbol_table cursor.
  induction fuel as [|fuel IH]; intros table cursor Hc Hup Hfuel.
  - assert (up <= cursor) by lia. simpl.
    destruct (Z.ltb_spec cursor up) as [?|_]; [lia|].
    exists table. rewrite Z.max_l by lia.
    split; [reflexivity|]. split; [reflexivity|]. split; [intros; lia | reflexivity].
  - simpl. destruct (Z.ltb_spec cursor up) as [Hlt|Hge].
    + rewrite setitem_Ok by lia. cbn [bind].
      destruct (IH (<[Z.to_nat cursor := s - 1]> table) (cursor + 1))
        as (table' & Hrun & Hlen & Hin & Hout).
      { lia. } { rewrite length_insert. exact Hup. } { rewrite length_insert. lia. }
      exists table'. rewrite Hrun. rewrite length_insert in Hlen.
      split; [f_equal; f_equal; lia|]. split; [exact Hlen|]. split.
      * intros i Hi. destruct (Z.eq_dec (Z.of_nat i) cursor) as [Heq|Hne].
        -- rewrite Hout by lia. subst cursor. rewrite Nat2Z.id.
           apply list_lookup_insert_eq. lia.
        -- apply Hin. lia.
      * intros i Hi. rewrite Hout by lia.
        apply list_lookup_insert_ne. lia.
    + exists table. rewrite Z.max_l by lia.
      split; [reflexivity|]. split; [reflexivity|]. split; [intros; lia | reflexivity].
Qed.

Lemma cum_mono (M : StaticModel) (i j : nat) :
  wf_model M -> (i <= j)%nat -> cum M i <= cum M j.
Proof. intros (_ & Hnn & _) Hij. apply sum_take_mono; assumption. Qed.

Lemma cum_bounds (M : StaticModel) (j : nat) : wf_model M -> 0 <= cum M j <= 4096.
Proof.
  intros (_ & Hnn & Hsum & _). change (2 ^ MODEL_BITS) with 4096 in Hsum. unfold cum.
  pose proof (sum_take_le (_freqs M) j Hnn).
  pose proof (sum_nonneg _ (Forall_take _ j _ Hnn)). lia.
Qed.

Lemma cdf_cum (M : StaticModel) (k : nat) :
  wf_model M -> (k < 256)%nat -> cdf M (Z.of_nat k) = Ok (cum M k).
Proof.
  intros Hwf Hk. destruct (wf_cdf M (Z.of_nat k) Hwf ltac:(lia)) as (_ & Hc).
  rewrite Nat2Z.id in Hc. exact Hc.
Qed.

Lemma freq_cum (M : StaticModel) (k : nat) (f : Z) :
  wf_model M -> (k < 256)%nat -> freq M (Z.of_nat k) = Ok f ->
  cum M (S k) = cum M k + f.
Proof.
  intros Hwf Hk Hf.
  destruct (wf_freq M (Z.of_nat k) Hwf ltac:(lia)) as (f' & Hl & Hf' & _).
  rewrite Hf' in Hf. injection Hf as <-. rewrite Nat2Z.id in Hl.
  apply sum_take_S, Hl.
Qed.

(** The loop, started at symbol [k] with the table filled up to
    [cdf(k - 1)], ends with a table as [table_built] describes. *)
Lemma build_symbol_table_loop_spec (M : StaticModel) (n k : nat)
    (symbol_table : list Z) (cursor : Z) :
  wf_model M -> (k + n = 256)%nat ->
  length symbol_table = 4096%nat ->
  cursor = cum M (pred k) ->
  (forall (i : nat) (t : Z), symbol_table !! i = Some t ->
     (Z.of_nat i < cursor /\ 0 <= t /\ t + 1 < Z.of_nat k /\
      cum M (Z.to_nat t) <= Z.of_nat i < cum M (S (Z.to_nat t)))
     \/ (cursor <= Z.of_nat i /\ t = 0)) ->
  exists table',
    build_symbol_table_loop M (map Z.of_nat (seq k n)) symbol_table cursor = Ok table' /\
    table_built M table'.
Proof.
  intros Hwf. revert k symbol_table cursor.
  induction n as [|n IH]; intros k table cursor Hk Hlen Hcur Hinv.
  - exists table. split; [reflexivity|]. split; [exact Hlen|].
    assert (k = 256%nat) as -> by lia. simpl in Hcur. subst cursor.
    intros i t Hi. destruct (Hinv i t Hi) as [(H1 & H2 & H3 & H4)|H]; [left | right; exact H].
    repeat split; try lia.
  - cbn [seq map build_symbol_table_loop].
    rewrite (cdf_cum M k Hwf) by lia. cbn [bind].
    pose proof (cum_mono M (pred k) k Hwf ltac:(lia)) as Hmono.
    pose proof (cum_bounds M k Hwf) as Hbk.
    pose proof (cum_bounds M (pred k) Hwf) as Hbp.
    destruct (fill_slots_spec (S (length table)) table cursor (cum M k) (Z.of_nat k))
      as (table' & Hrun & Hlen' & Hin & Hout); [lia | lia | lia |].
    rewrite Hrun. cbn [bind].
    apply IH; [lia | lia | simpl; lia |].
    rewrite Z.max_r by lia.
    intros i t Hi.
    destruct (Z.lt_ge_cases (Z.of_nat i) cursor) as [Hlow|Hhigh].
    + rewrite Hout in Hi by lia.
      destruct (Hinv i t Hi) as [(H1 & H2 & H3 & H4)|(H1 & H2)]; [left | lia].
      repeat split; lia.
    + destruct (Z.lt_ge_cases (Z.of_nat i) (cum M k)) as [Hin'|Hout'].
      * rewrite Hin in Hi by lia. injection Hi as <-. left.
        assert (k <> 0)%nat as Hk0.
        { intros ->. simpl in Hcur. lia. }
        replace (Z.to_nat (Z.of_nat k - 1)) with (pred k) by lia.
        replace (S (pred k)) with k by lia.
        repeat split; lia.
      * rewrite Hout in Hi by lia.
        destruct (Hinv i t Hi) as [(H1 & _)|(H1 & H2)]; [lia | right; lia].
Qed.

Lemma build_symbol_table_spec (M : StaticModel) :
  wf_model M ->
  exists symbol_table, build_symbol_table M = Ok symbol_table /\
                       table_built M symbol_table.
Proof.
  intros Hwf. unfold build_symbol_table.
  apply (build_symbol_table_loop_spec M 256 0); try reflexivity; [exact Hwf|].
  intros i t Hi. right. apply lookup_replicate in Hi as [-> _].
  split; [|reflexivity]. change (cum M (pred 0)) with 0. lia.
Qed.

(** ** The decoder's renormalization loop and one decoded symbol *)

Lemma renorm_in_spec (stream : list byte) (X : Z) :
  0 <= X < L * 256 ->
  (exists X' stream', renorm_in stream X = Ok (X', stream') /\ in_range X')
  \/ renorm_in stream X = Raise IndexError.
Proof.
  revert X. induction stream as [|b rest IH]; intros X HX; cbn [renorm_in];
    change L with 8388608 in *; destruct (Z.ltb_spec X 8388608) as [Hlt|Hge].
  - right. reflexivity.
  - left. exists X, []. split; [reflexivity|]. unfold in_range.
    change L with 8388608. lia.
  - apply IH. pose proof (int_of_byte_range b).
    rewrite lor_shiftl_low by lia. change (2 ^ 8) with 256. lia.
  - left. exists X, (b :: rest). split; [reflexivity|]. unfold in_range.
    change L with 8388608. lia.
Qed.

Lemma table_built_lookup (M : StaticModel) (symbol_table : list Z) (i : Z) :
  wf_model M -> table_built M symbol_table -> 0 <= i < 4096 ->
  exists t, getitem symbol_table i = Ok t /\ 0 <= t <= 254 /\
            cum M (Z.to_nat t) <= i.
Proof.
  intros Hwf (Hlen & Hown) Hi.
  destruct (getitem_in_range symbol_table i) as (t & Ht & Hget); [lia|].
  exists t. split; [exact Hget|].
  destruct (Hown _ _ Ht) as [(H1 & H2 & H3)|(H1 & ->)]; [lia|].
  split; [lia|]. change (cum M (Z.to_nat 0)) with 0. lia.
Qed.

Lemma decode_symbol_spec (M : StaticModel) (symbol_table : list Z) (X : Z)
    (stream : list byte) :
  wf_model M -> table_built M symbol_table -> 0 <= X < L * 256 ->
  match decode_symbol M symbol_table (X, stream) with
  | Ok (X', _, s) => in_range X' /\ 0 <= s <= 254
  | Raise _ => True
  | Diverge => False
  end.
Proof.
  intros Hwf Htab HX. unfold decode_symbol.
  rewrite !land_mask, shiftr_model_bits.
  pose proof (Z.mod_pos_bound X 4096 ltac:(lia)) as Hi.
  destruct (table_built_lookup M symbol_table _ Hwf Htab Hi) as (t & Hget & Ht & Hc).
  rewrite Hget. cbn [bind].
  destruct (wf_freq M t Hwf ltac:(lia)) as (f & _ & Hf & Hfr).
  destruct (wf_cdf M t Hwf ltac:(lia)) as (_ & Hcdf).
  rewrite Hf. cbn [bind].
  destruct (Z.eqb_spec f 0) as [_|Hne]; [exact I|].
  rewrite Hcdf. cbn [bind]. fold (cum M (Z.to_nat t)).
  assert (0 <= X / 4096) as Hq by (apply Z.div_pos; lia).
  pose proof (Z.div_mod X 4096 ltac:(lia)) as Hdm.
  assert (f * (X / 4096) <= 4096 * (X / 4096)) as Hmul
    by (apply Z.mul_le_mono_nonneg_r; lia).
  assert (0 <= f * (X / 4096)) as Hmul0 by (apply Z.mul_nonneg_nonneg; lia).
  pose proof (cum_bounds M (Z.to_nat t) Hwf) as Hcb.
  assert (0 <= f * (X / 4096) + X mod 4096 - cum M (Z.to_nat t) < L * 256) as Hr
    by (change L with 8388608 in *; lia).
  destruct (renorm_in_spec stream _ Hr) as [(X' & stream' & Hrun & HX')|Hrun].
  - rewrite Hrun. cbn [bind]. split; [exact HX' | lia].
  - rewrite Hrun. exact I.
Qed.

Lemma decode_states_in_range (M : StaticModel) (symbol_table : list Z)
    (length : nat) (st : Z * list byte) :
  wf_model M -> table_built M symbol_table -> in_range (fst st) ->
  Forall in_range (decode_states M symbol_table length st).
Proof.
  intros Hwf Htab. revert st.
  induction length as [|n IH]; intros [X stream] HX; cbn [decode_states fst] in *.
  - constructor; [exact HX | constructor].
  - constructor; [exact HX|].
    pose proof (decode_symbol_spec M symbol_table X stream Hwf Htab) as Hstep.
    destruct (decode_symbol M symbol_table (X, stream)) as [[[X' stream'] s]| |].
    + apply IH. apply Hstep. unfold in_range in HX. change L with 8388608 in *. lia.
    + constructor.
    + constructor.
Qed.

(** ** The trace of the encoder ends in its state *)

Lemma renorm_out_trace_last (fuel : nat) (H X : Z) (outbuf : list Z)
    (X' : Z) (outbuf' : list Z) :
  renorm_out fuel H X outbuf = Ok (X', outbuf') ->
  List.last (renorm_out_trace fuel H X) X = X'.
Proof.
  revert X outbuf. induction fuel as [|fuel IH]; intros X outbuf;
    cbn [renorm_out renorm_out_trace]; destruct (X >=? H); intros Hrun;
    try discriminate; try (injection Hrun as <- _; reflexivity).
  specialize (IH _ _ Hrun). cbn [List.last].
  destruct (renorm_out_trace fuel H (Z.shiftr X 8)) as [|y l] eqn:E; [exact IH|].
  rewrite <- IH. clear. revert y. induction l as [|z l IHl]; intros y; [reflexivity|].
  cbn [List.last]. apply IHl.
Qed.

Lemma encode_symbol_trace_last (M : StaticModel) (st st' : Z * list Z) (b : byte) :
  encode_symbol M st b = Ok st' ->
  List.last (encode_symbol_trace M st b) (fst st) = fst st'.
Proof.
  intros Hstep. unfold encode_symbol_trace. rewrite Hstep.
  unfold encode_symbol in Hstep. destruct st as [X outbuf].
  destruct (freq M (int_of_byte b)) as [f| |]; try discriminate. cbn [bind] in Hstep.
  destruct (f =? 0); [discriminate|].
  apply List.last_last.
Qed.

(** ** The buffer handed to the decoder *)

Lemma read_state_compress (M : StaticModel) (raw comp : list byte) :
  compress M raw = Ok comp ->
  exists X outbuf body,
    compress_loop M raw (L, []) = Ok (X, outbuf) /\
    read_state comp = Ok (X, rev body).
Proof.
  unfold compress. intros H.
  apply bind_Ok in H as ([X outbuf] & Hrun & H).
  apply bind_Ok in H as (body & Hbody & H).
  apply bind_Ok in H as (state & Hpack & H). injection H as <-.
  exists X, outbuf, body. split; [exact Hrun|].
  pose proof (pack_le_u32_range X state Hpack) as HX.
  destruct (pack_le_u32_Ok X HX) as (b0 & b1 & b2 & b3 & Hbs & _).
  assert (length (rev state) = 4%nat) as Hlen.
  { rewrite length_rev. rewrite Hbs in Hpack. injection Hpack as <-. reflexivity. }
  unfold read_state, read. rewrite rev_app_distr.
  rewrite take_app_length', drop_app_length' by (symmetry; exact Hlen).
  rewrite (unpack_rev_pack X state Hpack). reflexivity.
Qed.

(** ** The state register: claim *)

(** C5, as the claim states it, fails: encoding [abcd] with its own
    model, the register is shifted down to 2097176, below [L], while the
    last symbol is renormalized. *)
Lemma state_range_counterexample :
  exists M, StaticModel_init corpus_abcd = Ok M /\
    In 2097176 (compress_trace M corpus_abcd (L, [])) /\
    ~ in_range 2097176.
Proof.
  eexists. split; [vm_compute; reflexivity|]. split.
  - vm_compute. tauto.
  - unfold in_range. change L with 8388608. lia.
Qed.

(** C5, amended. With a model built from a corpus, the state register lies
    in [[L, L * 256)] at the head of every iteration of the encoder's loop
    and at its exit; the state the decoder recovers from a buffer the
    encoder returned lies in it; and in a decode pass whose recovered state
    lies in it, so does the register at the head of every iteration and at
    the exit.  Inside an iteration the register may be below [L]. *)
Theorem state_register_range (D : list byte) (M : StaticModel) (raw : list byte) :
  StaticModel_init D = Ok M ->
  Forall in_range (compress_states M raw (L, [])) /\
  (forall comp st, compress M raw = Ok comp -> read_state comp = Ok st ->
                   in_range (fst st)) /\
  (forall comp symbol_table st length,
     build_symbol_table M = Ok symbol_table -> read_state comp = Ok st ->
     in_range (fst st) ->
     Forall in_range (decode_states M symbol_table length st)).
Proof.
  intros HM. pose proof (StaticModel_init_wf D M HM) as Hwf.
  split; [|split].
  - apply compress_states_in_range; [exact Hwf | exact L_in_range | constructor].
  - intros comp st Hcomp Hread.
    destruct (read_state_compress M raw comp Hcomp)
      as (X & outbuf & body & Hrun & Hst).
    rewrite Hst in Hread. injection Hread as <-. cbn [fst].
    destruct (compress_loop_spec M raw L [] Hwf L_in_range (List.Forall_nil _))
      as [(_ & Hr)|(_ & X' & out' & Hr & HX' & _)]; rewrite Hr in Hrun;
      [discriminate|]. injection Hrun as <- _. exact HX'.
  - intros comp symbol_table st length Htab _ Hst.
    destruct (build_symbol_table_spec M Hwf) as (table' & Htab' & Hbuilt).
    rewrite Htab' in Htab. injection Htab as <-.
    apply decode_states_in_range; assumption.
Qed.

Lemma state_register_range_witness :
  exists M, StaticModel_init corpus_abcd = Ok M /\
    Forall in_range (compress_states M corpus_abcd (L, [])) /\
    (forall comp st, compress M corpus_abcd = Ok comp -> read_state comp = Ok st ->
                     in_range (fst st)) /\
    (forall comp symbol_table st length,
       build_symbol_table M = Ok symbol_table -> read_state comp = Ok st ->
       in_range (fst st) ->
       Forall in_range (decode_states M symbol_table length st)).
Proof.
  eexists. split; [vm_compute; reflexivity|].
  apply (state_register_range corpus_abcd). vm_compute. reflexivity.
Defined.

(** ** The empty sequence: claim *)

(** C10. With a model built from a corpus, encoding the empty sequence
    emits no renormalization byte and returns the four little-endian bytes
    of the initial state [L = 2^23]; decoding that buffer with length 0
    returns the empty sequence. *)
Theorem empty_sequence (D : list byte) (M : StaticModel) :
  StaticModel_init D = Ok M ->
  compress_loop M [] (L, []) = Ok (L, []) /\
  pack_le_u32 L = Ok [x00; x00; x80; x00] /\
  L = 2 ^ 23 /\
  compress M [] = Ok [x00; x00; x80; x00] /\
  decompress M [x00; x00; x80; x00] 0 = Ok [].
Proof.
  intros HM. pose proof (StaticModel_init_wf D M HM) as Hwf.
  split; [reflexivity|]. split; [vm_compute; reflexivity|].
  split; [reflexivity|]. split; [vm_compute; reflexivity|].
  unfold decompress.
  assert (read_state [x00; x00; x80; x00] = Ok (L, [])) as -> by (vm_compute; reflexivity).
  cbn [bind].
  destruct (build_symbol_table_spec M Hwf) as (table & -> & _).
  reflexivity.
Qed.

Lemma empty_sequence_witness :
  exists M, StaticModel_init corpus_aaab = Ok M /\
    compress_loop M [] (L, []) = Ok (L, []) /\
    pack_le_u32 L = Ok [x00; x00; x80; x00] /\
    L = 2 ^ 23 /\
    compress M [] = Ok [x00; x00; x80; x00] /\
    decompress M [x00; x00; x80; x00] 0 = Ok [].
Proof.
  eexists. split; [vm_compute; reflexivity|].
  apply (empty_sequence corpus_aaab). vm_compute. reflexivity.
Defined.

(** ** The inverse table and the round trip on the byte 255: claims *)

(** C2. The table built for the model of the corpus [\xff] breaks the
    claim: symbol 255 owns the slots [0 .. 4095] ([cdf(255) = 0],
    [freq(255) = 4096]), yet slot 0 of the table holds 0, as every slot
    does: the loop only writes the slots of symbol [s - 1] when it visits
    [s], and never visits 256. *)
Theorem inverse_table_misses_last_symbol :
  exists M symbol_table,
    StaticModel_init corpus_ff = Ok M /\
    build_symbol_table M = Ok symbol_table /\
    cdf M 255 = Ok 0 /\ freq M 255 = Ok 4096 /\
    getitem symbol_table 0 = Ok 0 /\
    Forall (fun t => t = 0) symbol_table.
Proof.
  eexists. eexists. split; [vm_compute; reflexivity|].
  split; [vm_compute; reflexivity|].
  split; [vm_compute; reflexivity|].
  split; [vm_compute; reflexivity|].
  split; [vm_compute; reflexivity|].
  apply Forall_forall. intros t Ht. apply list_elem_of_In in Ht.
  apply (repeat_spec 4096 0 t). exact Ht.
Qed.

(** C1. The round trip breaks on the byte 255: the corpus [\xff],
    encoded with its own model, makes [decompress] raise, and the corpus
    [\x00\xff] decodes to [\x00\x00]. *)
Theorem round_trip_fails_on_byte_255 :
  (exists M comp,
     StaticModel_init corpus_ff = Ok M /\
     compress M corpus_ff = Ok comp /\
     decompress M comp (length corpus_ff)
     = Raise (ValueError "Decoding/Symbol Table Error, symbol with 0 frequency found.")) /\
  (exists M comp,
     StaticModel_init corpus_00ff = Ok M /\
     compress M corpus_00ff = Ok comp /\
     decompress M comp (length corpus_00ff) = Ok [x00; x00] /\
     [x00; x00] <> corpus_00ff).
Proof.
  split.
  - eexists. eexists. split; [vm_compute; reflexivity|].
    split; [vm_compute; reflexivity|]. vm_compute. reflexivity.
  - eexists. eexists. split; [vm_compute; reflexivity|].
    split; [vm_compute; reflexivity|]. split; [vm_compute; reflexivity|].
    discriminate.
Qed.

(** ** Bytes and integers *)

Lemma bytes_inv (l : list Z) (bs : list byte) :
  bytes l = Ok bs -> map int_of_byte bs = l.
Proof.
  revert bs. induction l as [|x l IH]; intros bs H; cbn [bytes] in H.
  - injection H as <-. reflexivity.
  - destruct (Z.leb_spec 0 x) as [Hx|?]; [|discriminate H].
    cbn [andb] in H. destruct (x <? 256); [|discriminate H].
    destruct (Byte.of_N (Z.to_N x)) as [b|] eqn:Hb; [|discriminate H].
    apply bind_Ok in H as (bs' & Hbs' & Heq). injection Heq as <-.
    cbn [map]. rewrite (IH _ Hbs'). f_equal. unfold int_of_byte.
    rewrite (Byte.to_of_N _ Hb). lia.
Qed.

Lemma bytes_of_ints (bs : list byte) : bytes (map int_of_byte bs) = Ok bs.
Proof.
  induction bs as [|b bs IH]; [reflexivity|]. cbn [map bytes].
  pose proof (int_of_byte_range b) as Hb.
  destruct (Z.leb_spec 0 (int_of_byte b)) as [_|?]; [|lia].
  destruct (Z.ltb_spec (int_of_byte b) 256) as [_|?]; [|lia]. cbn [andb].
  unfold int_of_byte at 1. rewrite N2Z.id, Byte.of_to_N, IH. reflexivity.
Qed.

Lemma int_of_byte_255 (b : byte) : int_of_byte b = 255 -> b = xff.
Proof.
  unfold int_of_byte. intros H.
  assert (Byte.to_N b = 255%N) as Hn by lia.
  pose proof (Byte.of_to_N b) as Hof. rewrite Hn in Hof.
  change (Byte.of_N 255) with (Some xff) in Hof. congruence.
Qed.

(** ** Undoing the encoder's renormalization *)

Lemma renorm_in_done (stream : list byte) (X : Z) :
  L <= X -> renorm_in stream X = Ok (X, stream).
Proof.
  intros HX. destruct stream; cbn [renorm_in];
    destruct (Z.ltb_spec X L) as [?|_]; try lia; reflexivity.
Qed.

Lemma renorm_in_step (b : byte) (stream : list byte) (X : Z) :
  0 <= X -> X / 256 < L -> int_of_byte b = X mod 256 ->
  renorm_in (b :: stream) (X / 256) = renorm_in stream X.
Proof.
  intros HX Hlt Hb. cbn [renorm_in].
  destruct (Z.ltb_spec (X / 256) L) as [_|?]; [|lia].
  pose proof (int_of_byte_range b).
  rewrite lor_shiftl_low by lia. change (2 ^ 8) with 256.
  f_equal. pose proof (Z.div_mod X 256 ltac:(lia)). lia.
Qed.

(** The bytes the encoder's loop appends, read back last first, lead the
    decoder's loop from the value the encoder stopped at to the value it
    started from, as long as that value is below [L]. *)
Lemma renorm_undo (fuel : nat) (H X : Z) (outbuf : list Z) (X1 : Z)
    (outbuf' : list Z) :
  0 <= X -> renorm_out fuel H X outbuf = Ok (X1, outbuf') ->
  exists e, outbuf' = outbuf ++ e /\
    forall es rest, map int_of_byte es = e -> X < L ->
      renorm_in (rev es ++ rest) X1 = renorm_in rest X.
Proof.
  revert X outbuf. induction fuel as [|fuel IH]; intros X outbuf HX;
    cbn [renorm_out]; destruct (X >=? H).
  - discriminate.
  - intros Hrun. injection Hrun as <- <-. exists []. split; [symmetry; apply app_nil_r|].
    intros es rest Hes _. destruct es; [reflexivity | discriminate].
  - rewrite shiftr8, land255. intros Hrun.
    assert (0 <= X / 256) as HX' by (apply Z.div_pos; lia).
    destruct (IH _ _ HX' Hrun) as (e & -> & Hundo).
    exists (X mod 256 :: e). split; [rewrite <- app_assoc; reflexivity|].
    intros es rest Hes Hlt. destruct es as [|b es]; [discriminate|].
    cbn [map] in Hes. injection Hes as Hb Hes.
    cbn [rev]. rewrite <- app_assoc. cbn [app].
    assert (X / 256 < L) as Hlt'.
    { change L with 8388608 in *. apply Z.div_lt_upper_bound; lia. }
    rewrite (Hundo es (b :: rest) Hes Hlt').
    apply renorm_in_step; assumption.
  - intros Hrun. injection Hrun as <- <-. exists []. split; [symmetry; apply app_nil_r|].
    intros es rest Hes _. destruct es; [reflexivity | discriminate].
Qed.

Lemma renorm_round_trip (fuel : nat) (H X : Z) (outbuf : list Z) (X1 : Z)
    (outbuf' : list Z) :
  in_range X -> renorm_out fuel H X outbuf = Ok (X1, outbuf') ->
  exists e, outbuf' = outbuf ++ e /\
    forall es rest, map int_of_byte es = e ->
      renorm_in (rev es ++ rest) X1 = Ok (X, rest).
Proof.
  unfold in_range. intros HX.
  destruct fuel as [|fuel]; cbn [renorm_out]; destruct (X >=? H).
  - discriminate.
  - intros Hrun. injection Hrun as <- <-. exists []. split; [symmetry; apply app_nil_r|].
    intros es rest Hes. destruct es; [|discriminate]. apply renorm_in_done. lia.
  - rewrite shiftr8, land255. intros Hrun.
    assert (0 <= X) as HX0 by (change L with 8388608 in *; lia).
    assert (0 <= X / 256) as HX' by (apply Z.div_pos; lia).
    destruct (renorm_undo _ _ _ _ _ _ HX' Hrun) as (e & -> & Hundo).
    exists (X mod 256 :: e). split; [rewrite <- app_assoc; reflexivity|].
    intros es rest Hes. destruct es as [|b es]; [discriminate|].
    cbn [map] in Hes. injection Hes as Hb Hes.
    cbn [rev]. rewrite <- app_assoc. cbn [app].
    assert (X / 256 < L) as Hlt'.
    { change L with 8388608 in *. apply Z.div_lt_upper_bound; lia. }
    rewrite (Hundo es (b :: rest) Hes Hlt').
    rewrite renorm_in_step by assumption. apply renorm_in_done. lia.
  - intros Hrun. injection Hrun as <- <-. exists []. split; [symmetry; apply app_nil_r|].
    intros es rest Hes. destruct es; [|discriminate]. apply renorm_in_done. lia.
Qed.

(** ** The slots of the symbols below 255 *)

Lemma table_built_owner (M : StaticModel) (symbol_table : list Z) (s : nat) (i : Z) :
  wf_model M -> table_built M symbol_table -> (s <= 254)%nat ->
  cum M s <= i < cum M (S s) ->
  getitem symbol_table i = Ok (Z.of_nat s).
Proof.
  intros Hwf (Hlen & Hown) Hs Hi.
  pose proof (cum_bounds M s Hwf). pose proof (cum_bounds M (S s) Hwf).
  destruct (getitem_in_range symbol_table i) as (t & Ht & Hget); [lia|].
  rewrite Hget. f_equal.
  destruct (Hown _ _ Ht) as [(H1 & H2 & H3)|(H1 & _)]; rewrite Z2Nat.id in * by lia.
  - destruct (Nat.lt_trichotomy (Z.to_nat t) s) as [Hlt|[Heq|Hgt]].
    + pose proof (cum_mono M (S (Z.to_nat t)) s Hwf ltac:(lia)). lia.
    + lia.
    + pose proof (cum_mono M (S s) (Z.to_nat t) Hwf ltac:(lia)). lia.
  - pose proof (cum_mono M (S s) 255 Hwf ltac:(lia)). lia.
Qed.

(** ** One symbol, encoded then decoded *)

Lemma encode_symbol_inv (M : StaticModel) (X : Z) (outbuf : list Z) (b : byte)
    (X' : Z) (outbuf' : list Z) :
  wf_model M -> in_range X -> Forall byte_sized outbuf ->
  encode_symbol M (X, outbuf) b = Ok (X', outbuf') ->
  in_range X' /\ Forall byte_sized outbuf'.
Proof.
  intros Hwf HX Hout Hstep.
  destruct (encode_symbol_spec M X outbuf b Hwf HX Hout) as (f & _ & _ & Hzero & Hpos).
  destruct (Z.eq_dec f 0) as [Hz|Hne].
  - rewrite (Hzero Hz) in Hstep. discriminate.
  - destruct (Hpos Hne) as (X2 & out2 & Hstep' & HX2 & Hout2).
    rewrite Hstep' in Hstep. injection Hstep as <- <-. split; assumption.
Qed.

Lemma encode_decode_symbol (M : StaticModel) (symbol_table : list Z) (X : Z)
    (outbuf : list Z) (b : byte) (X' : Z) (outbuf' : list Z) :
  wf_model M -> table_built M symbol_table -> in_range X ->
  int_of_byte b <= 254 ->
  encode_symbol M (X, outbuf) b = Ok (X', outbuf') ->
  exists e, outbuf' = outbuf ++ e /\
    forall es rest, map int_of_byte es = e ->
      decode_symbol M symbol_table (X', rev es ++ rest) = Ok (X, rest, int_of_byte b).
Proof.
  intros Hwf Htab HX Hb Hstep.
  pose proof (int_of_byte_range b) as Hbr.
  destruct (wf_freq M _ Hwf Hbr) as (f & _ & Hf & Hfr).
  destruct (wf_cdf M _ Hwf Hbr) as (_ & Hc).
  pose proof (wf_cdf_freq M _ _ _ Hwf Hbr Hc Hf) as (Hc0 & _ & Hcf).
  pose proof (freq_cum M (Z.to_nat (int_of_byte b)) f Hwf ltac:(lia)) as Hnext.
  rewrite Z2Nat.id in Hnext by lia. specialize (Hnext Hf).
  unfold encode_symbol in Hstep. rewrite Hf in Hstep. cbn [bind] in Hstep.
  destruct (Z.eqb_spec f 0) as [?|Hne]; [discriminate|].
  change (Z.shiftl (Z.shiftr L MODEL_BITS) 8) with 524288 in Hstep.
  apply bind_Ok in Hstep as ([X1 out1] & Hrun & Hstep).
  rewrite Hc in Hstep. cbn [bind] in Hstep. injection Hstep as <- <-.
  assert (0 <= X1) as HX1.
  { destruct (renorm_out_spec (rounds X) (524288 * f) X outbuf)
      as (X2 & out2 & Hrun' & Hb2 & _); [lia | |].
    - unfold in_range in HX. change L with 8388608 in HX.
      split; [lia | apply rounds_enough].
    - rewrite Hrun' in Hrun. injection Hrun as <- _. lia. }
  destruct (renorm_round_trip _ _ _ _ _ _ HX Hrun) as (e & -> & Hundo).
  exists e. split; [reflexivity|]. intros es rest Hes.
  unfold decode_symbol. rewrite !land_mask, shiftr_model_bits, shiftl_model_bits.
  set (c := Py.sum (take (Z.to_nat (int_of_byte b)) (_freqs M))) in *.
  pose proof (Z.mod_pos_bound X1 f ltac:(lia)) as Hmod.
  pose proof (Z.div_mod X1 f ltac:(lia)) as Hdm.
  assert ((X1 / f * 4096 + X1 mod f + c) mod 4096 = X1 mod f + c) as Hslot.
  { symmetry. apply (Z.mod_unique _ _ (X1 / f)); lia. }
  assert ((X1 / f * 4096 + X1 mod f + c) / 4096 = X1 / f) as Hquot.
  { symmetry. apply (Z.div_unique _ _ _ (X1 mod f + c)); lia. }
  rewrite Hslot, Hquot.
  rewrite (table_built_owner M symbol_table (Z.to_nat (int_of_byte b)))
    by (try assumption; try lia; fold (cum M (Z.to_nat (int_of_byte b))) in c; lia).
  rewrite Z2Nat.id by lia. cbn [bind]. rewrite Hf. cbn [bind].
  destruct (Z.eqb_spec f 0) as [?|_]; [contradiction|].
  rewrite Hc. cbn [bind].
  replace (f * (X1 / f) + (X1 mod f + c) - c) with X1 by lia.
  rewrite (Hundo es rest Hes). reflexivity.
Qed.

(** ** The two loops *)

Lemma decode_loop_S (M : StaticModel) (symbol_table : list Z) (n : nat)
    (st : Z * list byte) (outbuf : list Z) :
  decode_loop M symbol_table (S n) st outbuf
  = let* (st', s) := decode_symbol M symbol_table st in
    decode_loop M symbol_table n st' (outbuf ++ [s]).
Proof. reflexivity. Qed.

(** One more iteration is one more symbol decoded at the end. *)
Lemma decode_loop_snoc (M : StaticModel) (symbol_table : list Z) (n : nat)
    (st : Z * list byte) (outbuf : list Z) :
  decode_loop M symbol_table (S n) st outbuf
  = let* (st', outbuf') := decode_loop M symbol_table n st outbuf in
    let* (st'', s) := decode_symbol M symbol_table st' in
    Ok (st'', outbuf' ++ [s]).
Proof.
  revert st outbuf. induction n as [|n IH]; intros st outbuf.
  - rewrite decode_loop_S. cbn [decode_loop bind].
    destruct (decode_symbol M symbol_table st) as [[st' s]| |]; reflexivity.
  - rewrite (decode_loop_S M symbol_table (S n)).
    rewrite (decode_loop_S M symbol_table n).
    destruct (decode_symbol M symbol_table st) as [[st' s]| |]; cbn [bind];
      [apply IH | reflexivity | reflexivity].
Qed.

(** Decoding as many symbols as were encoded walks the encoder's states
    backwards and yields the symbols last first. *)
Lemma compress_decode_loop (M : StaticModel) (symbol_table : list Z)
    (raw : list byte) (X : Z) (outbuf : list Z) (X' : Z) (outbuf' : list Z) :
  wf_model M -> table_built M symbol_table ->
  in_range X -> Forall byte_sized outbuf ->
  Forall (fun b => int_of_byte b <= 254) raw ->
  compress_loop M raw (X, outbuf) = Ok (X', outbuf') ->
  exists e, outbuf' = outbuf ++ e /\
    forall es rest acc, map int_of_byte es = e ->
      decode_loop M symbol_table (length raw) (X', rev es ++ rest) acc
      = Ok ((X, rest), acc ++ rev (map int_of_byte raw)).
Proof.
  intros Hwf Htab. revert X outbuf.
  induction raw as [|b raw IH]; intros X outbuf HX Hout Hraw Hrun.
  - cbn [compress_loop] in Hrun. injection Hrun as <- <-.
    exists []. split; [symmetry; apply app_nil_r|].
    intros es rest acc Hes. destruct es; [|discriminate].
    cbn [length decode_loop map rev app]. rewrite app_nil_r. reflexivity.
  - cbn [compress_loop] in Hrun.
    apply bind_Ok in Hrun as ([X1 out1] & Hstep & Hrun).
    apply Forall_cons in Hraw as [Hb Hraw].
    destruct (encode_symbol_inv M X outbuf b X1 out1 Hwf HX Hout Hstep) as (HX1 & Hout1).
    destruct (encode_decode_symbol M symbol_table X outbuf b X1 out1 Hwf Htab HX Hb Hstep)
      as (e1 & -> & Hdec).
    destruct (IH X1 _ HX1 Hout1 Hraw Hrun) as (e2 & -> & Hloop).
    exists (e1 ++ e2). split; [rewrite app_assoc; reflexivity|].
    intros es rest acc Hes.
    apply map_eq_app in Hes as (es1 & es2 & -> & Hes1 & Hes2).
    rewrite rev_app_distr, <- app_assoc.
    cbn [length]. rewrite decode_loop_snoc.
    rewrite (Hloop es2 (rev es1 ++ rest) acc Hes2). cbn [bind].
    rewrite (Hdec es1 rest Hes1). cbn [bind map rev].
    rewrite app_assoc. reflexivity.
Qed.

(** ** Present and absent byte values *)

Lemma freq_of_present (D : list byte) (M : StaticModel) (v : byte) :
  StaticModel_init D = Ok M -> In v D ->
  exists f, freq M (int_of_byte v) = Ok f /\ 1 <= f.
Proof.
  intros HM Hin.
  assert (D <> []) as Hne by (intros ->; contradiction).
  destruct (generate_frequency_table_spec D Hne)
    as (freqs & total & Hl & Hnn & Htot & Hpos & Hgrown & Hfloor & Heq).
  unfold StaticModel_init in HM. rewrite Heq in HM. cbn [bind] in HM.
  injection HM as <-.
  destruct (count_bytes_present D v Hin) as (y & Hy & Hy1).
  destruct (Forall2_lookup_l _ _ _ _ _ Hgrown Hy) as (g & Hg & Hz & Hle).
  pose proof (proj1 (Forall_lookup _ _) Hfloor _ _ Hg) as Hfl. cbv beta in Hfl.
  exists (g * 4096 / total). split.
  - unfold freq. cbn [_freqs].
    rewrite <- (Z2Nat.id (int_of_byte v)) by apply int_of_byte_range.
    apply getitem_Ok. rewrite int_of_byte_index, list_lookup_fmap, Hg. reflexivity.
  - apply scaled_present; lia.
Qed.

Lemma int_of_byte_inj (a b : byte) : int_of_byte a = int_of_byte b -> a = b.
Proof.
  unfold int_of_byte. intros H.
  assert (Byte.to_N a = Byte.to_N b) as Hn by lia.
  pose proof (Byte.of_to_N a) as Ha. rewrite Hn, Byte.of_to_N in Ha. congruence.
Qed.

Lemma freq_of_absent (D : list byte) (M : StaticModel) (v : byte) :
  StaticModel_init D = Ok M -> ~ In v D -> freq M (int_of_byte v) = Ok 0.
Proof.
  intros HM Hin.
  assert (D <> []) as Hne.
  { intros ->. vm_compute in HM. discriminate. }
  destruct (generate_frequency_table_spec D Hne)
    as (freqs & total & Hl & Hnn & Htot & Hpos & Hgrown & Hfloor & Heq).
  unfold StaticModel_init in HM. rewrite Heq in HM. cbn [bind] in HM.
  injection HM as <-.
  assert (count_bytes D !! N.to_nat (Byte.to_N v) = Some 0) as Hy.
  { unfold count_bytes. rewrite count_fold_absent.
    - apply lookup_replicate. split; [reflexivity|].
      pose proof (Byte.to_N_bounded v). lia.
    - intros b Hb Heq'. apply Hin.
      replace v with b; [exact Hb|]. apply int_of_byte_inj.
      unfold int_of_byte. lia. }
  destruct (Forall2_lookup_l _ _ _ _ _ Hgrown Hy) as (g & Hg & Hz & Hle).
  assert (g = 0) as -> by tauto.
  unfold freq. cbn [_freqs].
  rewrite <- (Z2Nat.id (int_of_byte v)) by apply int_of_byte_range.
  apply getitem_Ok. rewrite int_of_byte_index, list_lookup_fmap, Hg.
  cbn. rewrite Z.div_0_l by lia. reflexivity.
Qed.

(** ** The round trip away from the byte 255 *)

Lemma compress_inv (M : StaticModel) (raw comp : list byte) :
  compress M raw = Ok comp ->
  exists X outbuf body,
    compress_loop M raw (L, []) = Ok (X, outbuf) /\
    bytes outbuf = Ok body /\
    length comp = (length outbuf + 4)%nat /\
    read_state comp = Ok (X, rev body).
Proof.
  unfold compress. intros H.
  apply bind_Ok in H as ([X outbuf] & Hrun & H).
  apply bind_Ok in H as (body & Hbody & H).
  apply bind_Ok in H as (state & Hpack & H). injection H as <-.
  exists X, outbuf, body. split; [exact Hrun|]. split; [exact Hbody|].
  pose proof (pack_le_u32_range X state Hpack) as HX.
  destruct (pack_le_u32_Ok X HX) as (b0 & b1 & b2 & b3 & Hbs & _).
  assert (length state = 4%nat) as Hlen.
  { rewrite Hbs in Hpack. injection Hpack as <-. reflexivity. }
  split; [rewrite length_app, (bytes_length _ _ Hbody), Hlen; reflexivity|].
  unfold read_state, read. rewrite rev_app_distr.
  rewrite take_app_length', drop_app_length' by (rewrite length_rev; symmetry; exact Hlen).
  rewrite (unpack_rev_pack X state Hpack). reflexivity.
Qed.

Lemma not_255 (raw : list byte) :
  ~ In xff raw -> Forall (fun b => int_of_byte b <= 254) raw.
Proof.
  intros Hno. apply List.Forall_forall. intros b Hb.
  pose proof (int_of_byte_range b).
  destruct (Z.eq_dec (int_of_byte b) 255) as [E|E]; [|lia].
  apply int_of_byte_255 in E. subst b. contradiction.
Qed.

Lemma decompress_compress (M : StaticModel) (raw comp : list byte) :
  wf_model M -> ~ In xff raw ->
  compress M raw = Ok comp ->
  decompress M comp (length raw) = Ok raw.
Proof.
  intros Hwf Hno Hcomp.
  destruct (build_symbol_table_spec M Hwf) as (table & Htab & Hbuilt).
  destruct (compress_inv M raw comp Hcomp) as (X & outbuf & body & Hrun & Hbody & _ & Hread).
  destruct (compress_decode_loop M table raw L [] X outbuf Hwf Hbuilt L_in_range
              (List.Forall_nil _) (not_255 raw Hno) Hrun) as (e & He & Hloop).
  cbn [app] in He. subst e.
  specialize (Hloop body [] [] (bytes_inv _ _ Hbody)).
  rewrite app_nil_r in Hloop. cbn [app] in Hloop.
  unfold decompress. rewrite Hread. cbn [bind]. rewrite Htab. cbn [bind].
  rewrite Hloop. cbn [bind]. rewrite rev_involutive. apply bytes_of_ints.
Qed.

(** X1. With a model built from a corpus, whatever [compress] returns for a
    sequence free of the byte 255 is decoded back to that sequence. *)
Theorem round_trip_without_255 (D : list byte) (M : StaticModel)
    (raw comp : list byte) :
  StaticModel_init D = Ok M -> ~ In xff raw ->
  compress M raw = Ok comp ->
  decompress M comp (length raw) = Ok raw.
Proof.
  intros HM. apply decompress_compress. exact (StaticModel_init_wf D M HM).
Qed.

Lemma round_trip_without_255_witness :
  exists M comp,
    StaticModel_init corpus_aaab = Ok M /\
    ~ In xff ["b"; "a"; "a"]%byte /\
    compress M ["b"; "a"; "a"]%byte = Ok comp /\
    decompress M comp (length ["b"; "a"; "a"]%byte) = Ok ["b"; "a"; "a"]%byte.
Proof.
  eexists. eexists. split; [vm_compute; reflexivity|].
  assert (~ In xff ["b"; "a"; "a"]%byte) as Hno.
  { cbn [In]. intros [H|[H|[H|[]]]]; discriminate H. }
  split; [exact Hno|].
  split; [vm_compute; reflexivity|].
  apply (round_trip_without_255 corpus_aaab _ ["b"; "a"; "a"]%byte _);
    [vm_compute; reflexivity | exact Hno | vm_compute; reflexivity].
Defined.

(** X2. A non-empty corpus free of the byte 255 is encoded by its own model
    and decoded back to itself. *)
Theorem round_trip_own_corpus (D : list byte) :
  D <> [] -> ~ In xff D ->
  exists M comp,
    StaticModel_init D = Ok M /\
    compress M D = Ok comp /\
    decompress M comp (length D) = Ok D.
Proof.
  intros Hne Hno.
  destruct (generate_frequency_table_spec D Hne)
    as (freqs & total & _ & _ & _ & _ & _ & _ & Heq).
  assert (exists M, StaticModel_init D = Ok M) as (M & HM).
  { unfold StaticModel_init. rewrite Heq. cbn [bind]. eauto. }
  pose proof (StaticModel_init_wf D M HM) as Hwf.
  destruct (compress_loop_spec M D L [] Hwf L_in_range (List.Forall_nil _))
    as [((b & Hin & Hb) & _)|(_ & X & outbuf & Hrun & HX & Hout)].
  - destruct (freq_of_present D M b HM Hin) as (f & Hf & Hf1).
    rewrite Hf in Hb. injection Hb as ->. lia.
  - destruct (compress_of_loop M D X outbuf Hrun HX Hout) as (body & state & _ & _ & Hc).
    exists M, (body ++ state). split; [exact HM|]. split; [exact Hc|].
    exact (decompress_compress M D _ Hwf Hno Hc).
Qed.

Lemma round_trip_own_corpus_witness :
  corpus_abcd <> [] /\ ~ In xff corpus_abcd /\
  exists M comp,
    StaticModel_init corpus_abcd = Ok M /\
    compress M corpus_abcd = Ok comp /\
    decompress M comp (length corpus_abcd) = Ok corpus_abcd.
Proof.
  assert (corpus_abcd <> []) as Hne by discriminate.
  assert (~ In xff corpus_abcd) as Hno.
  { cbn [In corpus_abcd]. intros [H|[H|[H|[H|[]]]]]; discriminate H. }
  split; [exact Hne|]. split; [exact Hno|].
  exact (round_trip_own_corpus corpus_abcd Hne Hno).
Defined.

(** ** The inverse table below symbol 255 *)

(** X4. For a model built from a corpus the table is built, has 4096 slots,
    maps every slot of a symbol [s <= 254] to [s], and leaves 0 in every
    slot from [cdf(255)] on. *)
Theorem inverse_table_below_255 (D : list byte) (M : StaticModel) :
  StaticModel_init D = Ok M ->
  exists symbol_table,
    build_symbol_table M = Ok symbol_table /\
    length symbol_table = 4096%nat /\
    (forall s c f i, 0 <= s <= 254 -> cdf M s = Ok c -> freq M s = Ok f ->
       c <= i < c + f -> getitem symbol_table i = Ok s) /\
    (forall c i, cdf M 255 = Ok c -> c <= i < 4096 ->
       getitem symbol_table i = Ok 0).
Proof.
  intros HM. pose proof (StaticModel_init_wf D M HM) as Hwf.
  destruct (build_symbol_table_spec M Hwf) as (table & Htab & Hbuilt).
  exists table. split; [exact Htab|]. split; [exact (proj1 Hbuilt)|]. split.
  - intros s c f i Hs Hc Hf Hi.
    rewrite <- (Z2Nat.id s) in Hc, Hf |- * by lia.
    rewrite (cdf_cum M _ Hwf) in Hc by lia. injection Hc as <-.
    pose proof (freq_cum M (Z.to_nat s) f Hwf ltac:(lia) Hf) as Hnext.
    apply (table_built_owner M table); try assumption; lia.
  - intros c i Hc Hi.
    change 255 with (Z.of_nat 255) in Hc.
    rewrite (cdf_cum M _ Hwf) in Hc by lia. injection Hc as <-.
    destruct Hbuilt as (Hlen & Hown).
    destruct (getitem_in_range table i) as (t & Ht & Hget).
    { pose proof (cum_bounds M 255 Hwf). lia. }
    rewrite Hget. f_equal.
    pose proof (cum_bounds M 255 Hwf).
    destruct (Hown _ _ Ht) as [(H1 & _)|(_ & ->)]; [|reflexivity].
    rewrite Z2Nat.id in H1 by lia. lia.
Qed.

Lemma inverse_table_below_255_witness :
  exists M, StaticModel_init corpus_aaab = Ok M /\
  exists symbol_table,
    build_symbol_table M = Ok symbol_table /\
    length symbol_table = 4096%nat /\
    (forall s c f i, 0 <= s <= 254 -> cdf M s = Ok c -> freq M s = Ok f ->
       c <= i < c + f -> getitem symbol_table i = Ok s) /\
    (forall c i, cdf M 255 = Ok c -> c <= i < 4096 ->
       getitem symbol_table i = Ok 0).
Proof.
  eexists. split; [vm_compute; reflexivity|].
  apply (inverse_table_below_255 corpus_aaab). vm_compute. reflexivity.
Defined.

(** ** Which symbols a model can encode *)

(** X5. In a model built from a corpus, the frequency of a byte value is 0
    exactly when the value does not occur in the corpus. *)
Theorem frequency_zero_iff_absent (D : list byte) (M : StaticModel) (v : byte) :
  StaticModel_init D = Ok M ->
  (freq M (int_of_byte v) = Ok 0 <-> ~ In v D).
Proof.
  intros HM. split.
  - intros Hz Hin. destruct (freq_of_present D M v HM Hin) as (f & Hf & Hf1).
    rewrite Hf in Hz. injection Hz as ->. lia.
  - apply freq_of_absent. exact HM.
Qed.

Lemma frequency_zero_iff_absent_witness :
  exists M, StaticModel_init corpus_aaab = Ok M /\
    (freq M (int_of_byte "z"%byte) = Ok 0 <-> ~ In "z"%byte corpus_aaab).
Proof.
  eexists. split; [vm_compute; reflexivity|].
  apply (frequency_zero_iff_absent corpus_aaab). vm_compute. reflexivity.
Defined.

(** X6. The constructor returns a model exactly for the non-empty corpora. *)
Theorem model_built_iff_nonempty (D : list byte) :
  (exists M, StaticModel_init D = Ok M) <-> D <> [].
Proof.
  split.
  - intros (M & HM) ->. vm_compute in HM. discriminate.
  - intros Hne.
    destruct (generate_frequency_table_spec D Hne)
      as (freqs & total & _ & _ & _ & _ & _ & _ & Heq).
    unfold StaticModel_init. rewrite Heq. cbn [bind]. eauto.
Qed.

(** X7. The last entry of the cdf plus the last frequency is the sum of all
    frequencies: the value [cdf(256)] would have. *)
Theorem cdf_end (D : list byte) (M : StaticModel) (c f : Z) :
  StaticModel_init D = Ok M ->
  cdf M 255 = Ok c -> freq M 255 = Ok f ->
  c + f = Py.sum (_freqs M).
Proof.
  intros HM Hc Hf. pose proof (StaticModel_init_wf D M HM) as Hwf.
  change 255 with (Z.of_nat 255) in Hc, Hf.
  rewrite (cdf_cum M _ Hwf) in Hc by lia. injection Hc as <-.
  rewrite <- (freq_cum M 255 f Hwf ltac:(lia) Hf).
  unfold cum. rewrite take_ge; [reflexivity|]. destruct Hwf as (Hlen & _). lia.
Qed.

Lemma cdf_end_witness :
  exists M, StaticModel_init corpus_aab = Ok M /\
    cdf M 255 = Ok 4095 /\ freq M 255 = Ok 0 /\ 4095 + 0 = Py.sum (_freqs M).
Proof.
  eexists. split; [vm_compute; reflexivity|].
  split; [vm_compute; reflexivity|]. split; [vm_compute; reflexivity|].
  apply (cdf_end corpus_aab); vm_compute; reflexivity.
Defined.

(** ** The redistribution loop needs no more passes *)

Lemma redistribute_more_fuel (fuel k : nat) (enc_total : Z) (freqs : list Z)
    (total : Z) (r : list Z * Z) :
  redistribute fuel enc_total freqs total = Ok r ->
  redistribute (fuel + k) enc_total freqs total = Ok r.
Proof.
  revert freqs total. induction fuel as [|fuel IH]; intros freqs total;
    [discriminate|].
  cbn [redistribute Nat.add].
  destruct (raise_pass (total / enc_total + 1) freqs) as [added freqs'].
  destruct (added =? 0); [trivial | apply IH].
Qed.

Lemma scale_not_diverge (enc_total total : Z) (freqs : list Z) :
  scale enc_total total freqs <> Diverge.
Proof.
  induction freqs as [|f rest IH]; [discriminate|]. cbn [scale].
  unfold floordiv. destruct (total =? 0); [discriminate|]. cbn [bind].
  destruct (scale enc_total total rest); [discriminate | discriminate | contradiction].
Qed.

(** X8. The [while True] loop of [generate_frequency_table] always stops, and
    within the passes the model grants it: granting more changes
    nothing. *)
Theorem redistribution_stops (raw : list byte) (fuel : nat) :
  (passes raw <= fuel)%nat ->
  generate_frequency_table raw <> Diverge /\
  generate_frequency_table_fuel fuel raw = generate_frequency_table raw.
Proof.
  intros Hfuel.
  destruct (redistribute_terminates (passes raw) (count_bytes raw)
              (Py.sum (count_bytes raw)) 0 (Z.of_nat (length raw)))
    as [[freqs total] Hrun].
  - apply count_bytes_length.
  - apply count_bytes_nonneg.
  - reflexivity.
  - eapply Forall_impl; [apply count_bytes_nonneg|]. cbv beta. intros; lia.
  - rewrite excess_zero by apply count_bytes_nonneg. rewrite count_bytes_sum. lia.
  - lia.
  - lia.
  - unfold passes. rewrite Z.sub_0_r.
    assert ((Z.of_nat (length raw) + 4096) / 3840 <= Z.of_nat (length raw) + 2); [|lia].
    apply Z.lt_succ_r. apply Z.div_lt_upper_bound; lia.
  - unfold generate_frequency_table, generate_frequency_table_fuel.
    change (Z.shiftl 1 MODEL_BITS) with 4096.
    replace fuel with (passes raw + (fuel - passes raw))%nat by lia.
    rewrite (redistribute_more_fuel _ _ _ _ _ _ Hrun), Hrun. cbn [bind].
    split; [apply scale_not_diverge | reflexivity].
Qed.

Lemma redistribution_stops_witness :
  (passes corpus_abcd <= 100)%nat /\
  generate_frequency_table corpus_abcd <> Diverge /\
  generate_frequency_table_fuel 100 corpus_abcd = generate_frequency_table corpus_abcd.
Proof.
  assert (passes corpus_abcd <= 100)%nat as H by (vm_compute; lia).
  split; [exact H | exact (redistribution_stops corpus_abcd 100 H)].
Defined.

(** ** Buffers too short to hold the state *)

(** X9. [decompress] raises [struct.error] on every buffer of fewer than four
    bytes, whatever the model and the length asked for. *)
Theorem decompress_short_buffer (M : StaticModel) (comp : list byte) (n : nat) :
  (length comp < 4)%nat -> decompress M comp n = Raise StructError.
Proof.
  intros Hlen. unfold decompress, read_state, read.
  rewrite <- length_rev in Hlen.
  destruct (rev comp) as [|a [|b [|c [|d l]]]]; cbn [length] in Hlen;
    try lia; reflexivity.
Qed.

Lemma decompress_short_buffer_witness :
  (length [x00; x80; x00] < 4)%nat /\
  decompress (mkStaticModel [] [] 0) [x00; x80; x00] 7 = Raise StructError.
Proof.
  assert (length [x00; x80; x00] < 4)%nat as H by (cbn; lia).
  split; [exact H | exact (decompress_short_buffer _ _ 7%nat H)].
Defined.

(** ** What the decoder can answer *)

Lemma unpack_be_u32_range (head : list byte) (X : Z) :
  unpack_be_u32 head = Ok X -> 0 <= X < 2 ^ 32 /\ length head = 4%nat.
Proof.
  destruct head as [|b3 [|b2 [|b1 [|b0 [|? ?]]]]]; cbn [unpack_be_u32];
    intros H; try discriminate H. injection H as <-.
  pose proof (int_of_byte_range b0). pose proof (int_of_byte_range b1).
  pose proof (int_of_byte_range b2). pose proof (int_of_byte_range b3).
  rewrite (lor_shiftl_low _ (int_of_byte b0) 8) by lia.
  rewrite (lor_shiftl_low _ _ 16) by lia.
  rewrite (lor_shiftl_low _ _ 24) by lia.
  split; [lia | reflexivity].
Qed.

Lemma read_state_cases (comp : list byte) :
  (exists X stream, read_state comp = Ok (X, stream) /\ 0 <= X < 2 ^ 32 /\
                    (4 <= length comp)%nat)
  \/ (read_state comp = Raise StructError /\ (length comp < 4)%nat).
Proof.
  unfold read_state, read. rewrite <- (length_rev comp).
  destruct (rev comp) as [|b3 [|b2 [|b1 [|b0 l]]]];
    try (right; split; [reflexivity | cbn [length]; lia]).
  left.
  change (take 4 (b3 :: b2 :: b1 :: b0 :: l)) with [b3; b2; b1; b0].
  change (drop 4 (b3 :: b2 :: b1 :: b0 :: l)) with l.
  destruct (unpack_be_u32 [b3; b2; b1; b0]) as [X| |] eqn:E;
    try (cbn [unpack_be_u32] in E; discriminate E).
  exists X, l. split; [reflexivity|].
  split; [exact (proj1 (unpack_be_u32_range _ _ E)) | cbn [length]; lia].
Qed.






(** X11. With a model built from a corpus, decoding zero symbols from a buffer
    of at least four bytes returns the empty sequence, whatever the bytes
    are. *)
Theorem decompress_nothing (D : list byte) (M : StaticModel) (comp : list byte) :
  StaticModel_init D = Ok M -> (4 <= length comp)%nat ->
  decompress M comp 0 = Ok [].
Proof.
  intros HM Hlen. pose proof (StaticModel_init_wf D M HM) as Hwf.
  destruct (build_symbol_table_spec M Hwf) as (table & Htab & _).
  unfold decompress.
  destruct (read_state_cases comp) as [(X & stream & -> & _)|(_ & ?)]; [|lia].
  cbn [bind]. rewrite Htab. reflexivity.
Qed.

Lemma decompress_nothing_witness :
  exists M, StaticModel_init corpus_aaab = Ok M /\
    (4 <= length [xff; xff; xff; xff; xff])%nat /\
    decompress M [xff; xff; xff; xff; xff] 0 = Ok [].
Proof.
  eexists. split; [vm_compute; reflexivity|].
  assert (4 <= length [xff; xff; xff; xff; xff])%nat as H by (cbn; lia).
  split; [exact H|].
  apply (decompress_nothing corpus_aaab); [vm_compute; reflexivity | exact H].
Defined.

(** ** The size of the compressed buffer *)

Lemma renorm_out_count (fuel k : nat) (H X : Z) (outbuf : list Z) (X1 : Z)
    (outbuf' : list Z) :
  0 < H -> 0 <= X < H * 256 ^ Z.of_nat k ->
  renorm_out fuel H X outbuf = Ok (X1, outbuf') ->
  (length outbuf' <= length outbuf + k)%nat.
Proof.
  intros HH. revert k X outbuf.
  induction fuel as [|fuel IH]; intros k X outbuf HX; cbn [renorm_out];
    destruct (Z.geb_spec X H) as [Hge|Hlt]; intros Hrun;
    try discriminate Hrun; try (injection Hrun as <- <-; lia).
  destruct k as [|k]; [change (256 ^ Z.of_nat 0) with 1 in HX; lia|].
  rewrite shiftr8 in Hrun.
  assert (0 <= X / 256 < H * 256 ^ Z.of_nat k) as HX'.
  { split; [apply Z.div_pos; lia|].
    rewrite Nat2Z.inj_succ, Z.pow_succ_r in HX by lia.
    apply Z.div_lt_upper_bound; lia. }
  specialize (IH k _ _ HX' Hrun). rewrite length_app in IH. cbn [length] in IH. lia.
Qed.

Lemma encode_symbol_count (M : StaticModel) (X : Z) (outbuf : list Z) (b : byte)
    (X' : Z) (outbuf' : list Z) :
  wf_model M -> in_range X ->
  encode_symbol M (X, outbuf) b = Ok (X', outbuf') ->
  (length outbuf' <= length outbuf + 2)%nat.
Proof.
  intros Hwf HX Hstep. unfold in_range in HX. change L with 8388608 in HX.
  destruct (wf_freq M _ Hwf (int_of_byte_range b)) as (f & _ & Hf & Hfr).
  unfold encode_symbol in Hstep. rewrite Hf in Hstep. cbn [bind] in Hstep.
  destruct (Z.eqb_spec f 0) as [?|Hne]; [discriminate|].
  change (Z.shiftl (Z.shiftr L MODEL_BITS) 8) with 524288 in Hstep.
  apply bind_Ok in Hstep as ([X1 out1] & Hrun & Hstep).
  apply bind_Ok in Hstep as (c & _ & Hstep). injection Hstep as _ <-.
  apply (renorm_out_count _ 2) in Hrun; [exact Hrun | lia |].
  change (256 ^ Z.of_nat 2) with 65536. lia.
Qed.

Lemma compress_loop_count (M : StaticModel) (raw : list byte) (X : Z)
    (outbuf : list Z) (X' : Z) (outbuf' : list Z) :
  wf_model M -> in_range X -> Forall byte_sized outbuf ->
  compress_loop M raw (X, outbuf) = Ok (X', outbuf') ->
  (length outbuf' <= length outbuf + 2 * length raw)%nat.
Proof.
  intros Hwf. revert X outbuf.
  induction raw as [|b raw IH]; intros X outbuf HX Hout Hrun;
    cbn [compress_loop] in Hrun.
  - injection Hrun as <- <-. lia.
  - apply bind_Ok in Hrun as ([X1 out1] & Hstep & Hrun).
    destruct (encode_symbol_inv M X outbuf b X1 out1 Hwf HX Hout Hstep) as (HX1 & Hout1).
    pose proof (encode_symbol_count M X outbuf b X1 out1 Hwf HX Hstep).
    specialize (IH X1 out1 HX1 Hout1 Hrun). cbn [length]. lia.
Qed.

(** X12. With a model built from a corpus, a compressed buffer holds the four
    bytes of the state and at most two bytes per symbol encoded. *)
Theorem compressed_size (D : list byte) (M : StaticModel) (raw comp : list byte) :
  StaticModel_init D = Ok M -> compress M raw = Ok comp ->
  (4 <= length comp <= 2 * length raw + 4)%nat.
Proof.
  intros HM Hcomp. pose proof (StaticModel_init_wf D M HM) as Hwf.
  destruct (compress_inv M raw comp Hcomp) as (X & outbuf & body & Hrun & _ & Hlen & _).
  pose proof (compress_loop_count M raw L [] X outbuf Hwf L_in_range
                (List.Forall_nil _) Hrun) as Hcount.
  cbn [length] in Hcount. lia.
Qed.

Lemma compressed_size_witness :
  exists M comp,
    StaticModel_init corpus_abcd = Ok M /\ compress M corpus_abcd = Ok comp /\
    (4 <= length comp <= 2 * length corpus_abcd + 4)%nat.
Proof.
  eexists. eexists. split; [vm_compute; reflexivity|].
  split; [vm_compute; reflexivity|].
  eapply (compressed_size corpus_abcd _ corpus_abcd);
    [vm_compute; reflexivity | vm_compute; reflexivity].
Defined.

(** ** The accessors outside [range(256)] *)

Lemma getitem_outside {A : Type} (l : list A) (i : Z) :
  Z.of_nat (length l) <= i \/ i < - Z.of_nat (length l) ->
  getitem l i = Raise IndexError.
Proof.
  intros Hi. unfold getitem.
  destruct (Z.ltb_spec i 0) as [Hneg|Hpos].
  - destruct (Z.leb_spec 0 (i + Z.of_nat (length l))) as [?|_]; [lia | reflexivity].
  - destruct (Z.leb_spec 0 i) as [_|?]; [|lia].
    destruct (Z.ltb_spec i (Z.of_nat (length l))) as [?|_]; [lia | reflexivity].
Qed.

Lemma getitem_negative {A : Type} (l : list A) (i : Z) :
  - Z.of_nat (length l) <= i < 0 ->
  getitem l i = getitem l (i + Z.of_nat (length l)).
Proof.
  intros Hi. unfold getitem.
  destruct (Z.ltb_spec i 0) as [_|?]; [|lia].
  destruct (Z.ltb_spec (i + Z.of_nat (length l)) 0) as [?|_]; [lia|].
  reflexivity.
Qed.

(** X13. On a model built from a corpus, [freq] and [cdf] answer for the
    symbols 0 to 255, raise [IndexError] from 256 on and below -256, and
    read a symbol between -256 and -1 as that symbol plus 256. *)
Theorem accessors_by_index (D : list byte) (M : StaticModel) (s : Z) :
  StaticModel_init D = Ok M ->
  (0 <= s < 256 ->
     exists f c, freq M s = Ok f /\ cdf M s = Ok c /\
                 0 <= f /\ 0 <= c /\ c + f <= 2 ^ MODEL_BITS) /\
  (256 <= s \/ s < -256 ->
     freq M s = Raise IndexError /\ cdf M s = Raise IndexError) /\
  (-256 <= s < 0 ->
     freq M s = freq M (s + 256) /\ cdf M s = cdf M (s + 256)).
Proof.
  intros HM. pose proof (StaticModel_init_wf D M HM) as Hwf.
  pose proof Hwf as (Hlen & _ & _ & Hcdf).
  assert (length (_cdf M) = 256%nat) as Hlen'
    by (rewrite Hcdf, prefix_sums_length; exact Hlen).
  split; [|split].
  - intros Hs.
    destruct (wf_freq M s Hwf Hs) as (f & _ & Hf & _).
    destruct (wf_cdf M s Hwf Hs) as (_ & Hc).
    pose proof (wf_cdf_freq M s _ f Hwf Hs Hc Hf) as (H1 & H2 & H3).
    exists f. eexists. split; [exact Hf|]. split; [exact Hc|].
    change (2 ^ MODEL_BITS) with 4096. lia.
  - intros Hs. unfold freq, cdf.
    split; apply getitem_outside; rewrite ?Hlen, ?Hlen'; lia.
  - intros Hs. unfold freq, cdf.
    rewrite (getitem_negative (_freqs M)), (getitem_negative (_cdf M))
      by (rewrite ?Hlen, ?Hlen'; lia).
    rewrite Hlen, Hlen'. split; reflexivity.
Qed.

Lemma accessors_by_index_witness :
  exists M, StaticModel_init corpus_aaab = Ok M /\
  (0 <= 300 < 256 ->
     exists f c, freq M 300 = Ok f /\ cdf M 300 = Ok c /\
                 0 <= f /\ 0 <= c /\ c + f <= 2 ^ MODEL_BITS) /\
  (256 <= 300 \/ 300 < -256 ->
     freq M 300 = Raise IndexError /\ cdf M 300 = Raise IndexError) /\
  (-256 <= 300 < 0 ->
     freq M 300 = freq M (300 + 256) /\ cdf M 300 = cdf M (300 + 256)).
Proof.
  eexists. split; [vm_compute; reflexivity|].
  apply (accessors_by_index corpus_aaab). vm_compute. reflexivity.
Defined.

(** ** A corpus of one repeated byte *)

Lemma sum_all_zero (l : list Z) :
  (forall j x, l !! j = Some x -> x = 0) -> Py.sum l = 0.
Proof.
  induction l as [|y l IH]; intros Hz; [reflexivity|]. rewrite sum_cons.
  rewrite (Hz 0%nat y eq_refl), IH; [reflexivity|].
  intros j x Hj. exact (Hz (S j) x Hj).
Qed.

Lemma sum_single (l : list Z) (i : nat) (f : Z) :
  l !! i = Some f ->
  (forall j x, j <> i -> l !! j = Some x -> x = 0) ->
  Py.sum l = f.
Proof.
  revert i. induction l as [|y l IH]; intros [|i] Hi Hz; try discriminate Hi;
    rewrite sum_cons.
  - injection Hi as ->. rewrite sum_all_zero; [lia|].
    intros j x Hj. exact (Hz (S j) x ltac:(lia) Hj).
  - rewrite (Hz 0%nat y ltac:(lia) eq_refl), (IH i Hi); [lia|].
    intros j x Hne Hj. exact (Hz (S j) x ltac:(lia) Hj).
Qed.

Lemma in_replicate_eq {A : Type} (k : nat) (a c : A) : In c (replicate k a) -> c = a.
Proof.
  induction k as [|k IH]; cbn [replicate In]; [contradiction|].
  intros [->|H]; [reflexivity | exact (IH H)].
Qed.

Lemma compress_loop_idle (M : StaticModel) (b : byte) (k : nat) :
  freq M (int_of_byte b) = Ok 4096 -> cdf M (int_of_byte b) = Ok 0 ->
  compress_loop M (replicate k b) (L, []) = Ok (L, []).
Proof.
  intros Hf Hc. induction k as [|k IH]; [reflexivity|].
  cbn [replicate compress_loop].
  assert (encode_symbol M (L, []) b = Ok (L, [])) as ->.
  { unfold encode_symbol. rewrite Hf. cbn [bind].
    change (4096 =? 0) with false. cbv iota.
    change (renorm_out (rounds L) (Z.shiftl (Z.shiftr L MODEL_BITS) 8 * 4096) L [])
      with (Ok (L, @nil Z)).
    cbn [bind]. rewrite Hc. reflexivity. }
  cbn [bind]. exact IH.
Qed.

(** X14. A corpus made of one byte value repeated gives that value the whole
    range, frequency 4096, and is compressed to the four bytes of the
    initial state alone. *)
Theorem single_symbol_corpus (b : byte) (n : nat) :
  exists M,
    StaticModel_init (replicate (S n) b) = Ok M /\
    freq M (int_of_byte b) = Ok 4096 /\
    compress M (replicate (S n) b) = Ok [x00; x00; x80; x00].
Proof.
  set (D := replicate (S n) b).
  assert (D <> []) as Hne by discriminate.
  assert (In b D) as Hin by (left; reflexivity).
  destruct (generate_frequency_table_spec D Hne)
    as (freqs & total & Hl & Hnn & Htot & Hpos & Hgrown & Hfloor & Heq).
  assert (exists M, StaticModel_init D = Ok M /\
                    _freqs M = map (fun f => f * 4096 / total) freqs) as (M & HM & HfM).
  { unfold StaticModel_init. rewrite Heq. cbn [bind]. eexists. split; reflexivity. }
  pose proof (StaticModel_init_wf D M HM) as Hwf.
  destruct (count_bytes_present D b Hin) as (y & Hy & Hy1).
  destruct (Forall2_lookup_l _ _ _ _ _ Hgrown Hy) as (g & Hg & Hz & Hle).
  assert (Py.sum freqs = g) as Hsum.
  { apply (sum_single _ _ _ Hg). intros j x Hne' Hj.
    destruct (Forall2_lookup_r _ _ _ _ _ Hgrown Hj) as (c & Hcj & Hcz & _).
    apply Hcz. unfold count_bytes in Hcj. rewrite count_fold_absent in Hcj.
    - apply lookup_replicate in Hcj as [-> _]. reflexivity.
    - intros a Ha. apply in_replicate_eq in Ha. subst a. auto. }
  assert (freq M (int_of_byte b) = Ok 4096) as Hf.
  { unfold freq. rewrite HfM.
    rewrite <- (Z2Nat.id (int_of_byte b)) by apply int_of_byte_range.
    apply getitem_Ok. rewrite int_of_byte_index, list_lookup_fmap, Hg.
    cbn. f_equal. rewrite Htot, Hsum, Z.mul_comm. apply Z.div_mul. lia. }
  assert (cdf M (int_of_byte b) = Ok 0) as Hc.
  { destruct (wf_cdf M _ Hwf (int_of_byte_range b)) as (_ & Hc).
    pose proof (wf_cdf_freq M _ _ _ Hwf (int_of_byte_range b) Hc Hf). rewrite Hc.
    f_equal. lia. }
  exists M. split; [exact HM|]. split; [exact Hf|].
  unfold compress, D. rewrite (compress_loop_idle M b (S n) Hf Hc). reflexivity.
Qed.

(** ** Decoding fewer symbols than were encoded *)

Lemma compress_loop_app (M : StaticModel) (pre suf : list byte) (st : Z * list Z) :
  compress_loop M (pre ++ suf) st
  = let* st' := compress_loop M pre st in compress_loop M suf st'.
Proof.
  revert st. induction pre as [|b pre IH]; intros st; [reflexivity|].
  cbn [app compress_loop].
  destruct (encode_symbol M st b) as [st'| |]; cbn [bind]; [apply IH | reflexivity..].
Qed.

Lemma compress_loop_inv (M : StaticModel) (raw : list byte) (X : Z)
    (outbuf : list Z) (X' : Z) (outbuf' : list Z) :
  wf_model M -> in_range X -> Forall byte_sized outbuf ->
  compress_loop M raw (X, outbuf) = Ok (X', outbuf') ->
  in_range X' /\ Forall byte_sized outbuf'.
Proof.
  intros Hwf HX Hout Hrun.
  destruct (compress_loop_spec M raw X outbuf Hwf HX Hout)
    as [(_ & Hr)|(_ & X2 & out2 & Hr & HX2 & Hout2)]; rewrite Hr in Hrun.
  - discriminate.
  - injection Hrun as <- <-. split; assumption.
Qed.

(** X3. With a model built from a corpus, decoding only as many symbols as
    the last part of the encoded sequence holds returns that last part,
    provided it is free of the byte 255: the decoder walks the sequence
    from its end. *)
Theorem decompress_tail (D : list byte) (M : StaticModel)
    (pre suf comp : list byte) :
  StaticModel_init D = Ok M -> ~ In xff suf ->
  compress M (pre ++ suf) = Ok comp ->
  decompress M comp (length suf) = Ok suf.
Proof.
  intros HM Hno Hcomp. pose proof (StaticModel_init_wf D M HM) as Hwf.
  destruct (build_symbol_table_spec M Hwf) as (table & Htab & Hbuilt).
  destruct (compress_inv M _ comp Hcomp) as (X & outbuf & body & Hrun & Hbody & _ & Hread).
  rewrite compress_loop_app in Hrun.
  apply bind_Ok in Hrun as ([X1 out1] & Hpre & Hsuf).
  destruct (compress_loop_inv M pre L [] X1 out1 Hwf L_in_range (List.Forall_nil _) Hpre)
    as (HX1 & Hout1).
  destruct (compress_decode_loop M table suf X1 out1 X outbuf Hwf Hbuilt HX1 Hout1
              (not_255 suf Hno) Hsuf) as (e & -> & Hloop).
  pose proof (bytes_inv _ _ Hbody) as Hmap.
  apply map_eq_app in Hmap as (b1 & es & -> & _ & Hes).
  specialize (Hloop es (rev b1) [] Hes). cbn [app] in Hloop.
  unfold decompress. rewrite Hread. cbn [bind]. rewrite Htab. cbn [bind].
  rewrite rev_app_distr, Hloop. cbn [bind]. rewrite rev_involutive.
  apply bytes_of_ints.
Qed.

Lemma decompress_tail_witness :
  exists M comp,
    StaticModel_init corpus_abcd = Ok M /\
    ~ In xff ["c"; "d"]%byte /\
    compress M (["a"; "b"] ++ ["c"; "d"])%byte = Ok comp /\
    decompress M comp (length ["c"; "d"]%byte) = Ok ["c"; "d"]%byte.
Proof.
  eexists. eexists. split; [vm_compute; reflexivity|].
  assert (~ In xff ["c"; "d"]%byte) as Hno.
  { cbn [In]. intros [H|[H|[]]]; discriminate H. }
  split; [exact Hno|]. split; [vm_compute; reflexivity|].
  apply (decompress_tail corpus_abcd _ ["a"; "b"]%byte ["c"; "d"]%byte _);
    [vm_compute; reflexivity | exact Hno | vm_compute; reflexivity].
Defined.

(** ** Normalization keeps the order of the counts *)

Lemma raised_monotone (limit a b : Z) :
  0 <= a -> a <= b -> raised limit a <= raised limit b.
Proof.
  intros Ha Hab. unfold raised.
  destruct (Z.eqb_spec a 0), (Z.ltb_spec a limit), (Z.eqb_spec b 0),
    (Z.ltb_spec b limit); cbn [negb andb]; lia.
Qed.

Lemma redistribute_monotone (fuel : nat) (freqs : list Z) (total : Z)
    (freqs' : list Z) (total' : Z) (i j : nat) (a b a' b' : Z) :
  redistribute fuel 4096 freqs total = Ok (freqs', total') ->
  freqs !! i = Some a -> freqs !! j = Some b -> 0 <= a -> a <= b ->
  freqs' !! i = Some a' -> freqs' !! j = Some b' -> a' <= b'.
Proof.
  revert freqs total a b. induction fuel as [|fuel IH];
    intros freqs total a b Hrun Ha Hb Ha0 Hab Ha' Hb'; [discriminate Hrun|].
  cbn [redistribute] in Hrun.
  pose proof (raise_pass_snd (total / 4096 + 1) freqs) as Hsnd.
  destruct (raise_pass (total / 4096 + 1) freqs) as [added fs]. cbn [snd] in Hsnd.
  subst fs.
  assert (map (raised (total / 4096 + 1)) freqs !! i
          = Some (raised (total / 4096 + 1) a)) as Hia
    by (rewrite list_lookup_fmap, Ha; reflexivity).
  assert (map (raised (total / 4096 + 1)) freqs !! j
          = Some (raised (total / 4096 + 1) b)) as Hjb
    by (rewrite list_lookup_fmap, Hb; reflexivity).
  pose proof (raised_monotone (total / 4096 + 1) a b Ha0 Hab) as Hmono.
  destruct (added =? 0).
  - injection Hrun as <- <-. rewrite Hia in Ha'. rewrite Hjb in Hb'.
    injection Ha' as <-. injection Hb' as <-. exact Hmono.
  - apply (IH _ _ _ _ Hrun Hia Hjb); try assumption.
    unfold raised. destruct (negb (a =? 0) && (a <? total / 4096 + 1)) eqn:E; [|exact Ha0].
    apply andb_true_iff in E as [_ E]. apply Z.ltb_lt in E. lia.
Qed.

(** X15. A byte value counted no more often than another in the corpus gets a
    normalized frequency no larger than the other's. *)
Theorem frequencies_follow_counts (D : list byte) (M : StaticModel) (u v : byte)
    (cu cv : Z) :
  StaticModel_init D = Ok M ->
  count_bytes D !! N.to_nat (Byte.to_N u) = Some cu ->
  count_bytes D !! N.to_nat (Byte.to_N v) = Some cv ->
  cu <= cv ->
  exists fu fv, freq M (int_of_byte u) = Ok fu /\ freq M (int_of_byte v) = Ok fv /\
                fu <= fv.
Proof.
  intros HM Hu Hv Hle.
  assert (D <> []) as Hne by (intros ->; vm_compute in HM; discriminate).
  unfold StaticModel_init, generate_frequency_table, generate_frequency_table_fuel in HM.
  change (Z.shiftl 1 MODEL_BITS) with 4096 in HM.
  apply bind_Ok in HM as (fs & Hgen & HM). injection HM as <-.
  apply bind_Ok in Hgen as ([freqs total] & Hrun & Hscale).
  pose proof (redistribute_post _ _ _ _ _ (count_bytes_nonneg D) eq_refl Hrun)
    as (Htot & Hge & Hgrown & Hnn & _).
  rewrite count_bytes_sum in Hge.
  assert (1 <= total) as Hpos by (destruct D; [congruence | cbn [length] in Hge; lia]).
  rewrite scale_Ok in Hscale by lia. injection Hscale as <-.
  destruct (Forall2_lookup_l _ _ _ _ _ Hgrown Hu) as (gu & Hgu & _).
  destruct (Forall2_lookup_l _ _ _ _ _ Hgrown Hv) as (gv & Hgv & _).
  pose proof (proj1 (Forall_lookup _ _) (count_bytes_nonneg D) _ _ Hu) as Hcu.
  cbv beta in Hcu.
  pose proof (redistribute_monotone _ _ _ _ _ _ _ _ _ _ _ Hrun Hu Hv Hcu Hle Hgu Hgv)
    as Hmono.
  exists (gu * 4096 / total), (gv * 4096 / total).
  unfold freq. cbn [_freqs]. split; [|split].
  - rewrite <- (Z2Nat.id (int_of_byte u)) by apply int_of_byte_range.
    apply getitem_Ok. rewrite int_of_byte_index, list_lookup_fmap, Hgu. reflexivity.
  - rewrite <- (Z2Nat.id (int_of_byte v)) by apply int_of_byte_range.
    apply getitem_Ok. rewrite int_of_byte_index, list_lookup_fmap, Hgv. reflexivity.
  - apply Z.div_le_mono; lia.
Qed.

Lemma frequencies_follow_counts_witness :
  exists M fu fv,
    StaticModel_init corpus_aaab = Ok M /\
    count_bytes corpus_aaab !! N.to_nat (Byte.to_N "b"%byte) = Some 1 /\
    count_bytes corpus_aaab !! N.to_nat (Byte.to_N "a"%byte) = Some 3 /\
    1 <= 3 /\
    freq M (int_of_byte "b"%byte) = Ok fu /\ freq M (int_of_byte "a"%byte) = Ok fv /\
    fu <= fv.
Proof.
  assert (exists M, StaticModel_init corpus_aaab = Ok M) as (M & HM)
    by (eexists; vm_compute; reflexivity).
  assert (count_bytes corpus_aaab !! N.to_nat (Byte.to_N "b"%byte) = Some 1) as Hu
    by (vm_compute; reflexivity).
  assert (count_bytes corpus_aaab !! N.to_nat (Byte.to_N "a"%byte) = Some 3) as Hv
    by (vm_compute; reflexivity).
  assert (1 <= 3) as Hle by lia.
  destruct (frequencies_follow_counts corpus_aaab M "b"%byte "a"%byte 1 3 HM Hu Hv Hle)
    as (fu & fv & H1 & H2 & H3).
  exists M, fu, fv. repeat split; assumption.
Defined.
